(** * Router: a shallow embedding of [src/src/Router.ts]

    The router keeps a JavaScript [Map] from the key [method + path] to a
    pair of a match predicate and a handler.  [addRoute] registers a route,
    [route] scans the map in insertion order and dispatches to the first
    entry whose predicate accepts the request.

    The embedding follows the TypeScript source line by line: strings are
    [string], arrays are lists read by index ([undefined] out of range),
    the [Map] is an insertion-ordered association list with in-place
    overwrite, the [params] object is a finite map from property names to
    values, a promise is its settled outcome, and a thrown error inside the
    [async] function is a rejected promise. *)

From Stdlib Require Import ZArith String Ascii List Bool.
From stdpp Require Import gmap strings list fin_maps.

Local Open Scope string_scope.
Local Open Scope list_scope.

(* ===================================================================== *)
(** ** JavaScript primitives used by the router *)
(* ===================================================================== *)

Module Js.

(** The values the router itself produces or stores in [params]. *)
Inductive Value : Type :=
| Undefined
| Null
| Str (s : string)
| Num (n : Z).

(** What a rejected promise (or a [throw]) carries. *)
Inductive Error : Type :=
| TypeError (message : string)
| Thrown (reason : Value).

(** A promise, observed once it has settled. *)
Inductive Promise (A : Type) : Type :=
| Resolved (a : A)
| Rejected (e : Error).
Arguments Resolved {A} a.
Arguments Rejected {A} e.

(** [s.split(sep)] for a one-character separator: never empty, and a
    separator at either end yields an empty piece there. *)
Fixpoint split (sep : ascii) (s : string) : list string :=
  match s with
  | EmptyString => [EmptyString]
  | String c rest =>
      if Ascii.eqb c sep then EmptyString :: split sep rest
      else match split sep rest with
           | piece :: pieces => String c piece :: pieces
           | [] => [String c EmptyString]
           end
  end.

(** [a.shift()]: drops the first element, if there is one. *)
Definition shift {A : Type} (a : list A) : list A := tail a.

(** [s.startsWith(p)]. *)
Definition startsWith (s p : string) : bool := String.prefix p s.

(** [s.replace(/[()]/g, '')]: every parenthesis is removed. *)
Fixpoint replace_parens (s : string) : string :=
  match s with
  | EmptyString => EmptyString
  | String c rest =>
      if Ascii.eqb c "(" || Ascii.eqb c ")" then replace_parens rest
      else String c (replace_parens rest)
  end.

(** [a[i]] on an array of strings: [undefined] past the end. *)
Definition index (a : list string) (i : nat) : Value :=
  match a !! i with
  | Some s => Str s
  | None => Undefined
  end.

(** [v !== part] where [part] is a string. *)
Definition strict_ne (v : Value) (part : string) : bool :=
  match v with
  | Str s => negb (String.eqb s part)
  | _ => true
  end.

(** [obj[name] = v] on an object created by the literal [{}], for a value
    [v] that is a string or [undefined]: an own property is written,
    except that the name [__proto__] reaches the inherited setter, which
    ignores values that are not objects. *)
Definition assign (name : string) (v : Value) (obj : gmap string Value)
  : gmap string Value :=
  if String.eqb name "__proto__" then obj else <[name := v]> obj.

End Js.

(** An insertion-ordered [Map<string, V>]: [set] overwrites the value of a
    key already present and leaves it where it was first inserted, a new
    key goes to the end; iteration follows the list. *)
Module JsMap.

Fixpoint set {V : Type} (k : string) (v : V) (m : list (string * V))
  : list (string * V) :=
  match m with
  | [] => [(k, v)]
  | (k', v') :: rest =>
      if String.eqb k' k then (k, v) :: rest else (k', v') :: set k v rest
  end.

Fixpoint get {V : Type} (k : string) (m : list (string * V)) : option V :=
  match m with
  | [] => None
  | (k', v') :: rest => if String.eqb k' k then Some v' else get k rest
  end.

Definition keys {V : Type} (m : list (string * V)) : list string :=
  map fst m.

End JsMap.

(* ===================================================================== *)
(** ** Data model *)
(* ===================================================================== *)

(** [HttpMethod] is imported from the host's typings, where it is the union
    of these string literals; [method_string] is the string a value of the
    type is at run time. *)
Inductive HttpMethod : Type :=
| GET | POST | DELETE | HEAD | PATCH | PUT | OPTIONS | TRACE | CONNECT.

Definition method_string (m : HttpMethod) : string :=
  match m with
  | GET => "GET" | POST => "POST" | DELETE => "DELETE" | HEAD => "HEAD"
  | PATCH => "PATCH" | PUT => "PUT" | OPTIONS => "OPTIONS"
  | TRACE => "TRACE" | CONNECT => "CONNECT"
  end.

Definition NOT_FOUND : Z := 404.

Record HttpResponse : Type := {
  headers : option (list (string * string));
  status : Z;
  body : Js.Value
}.

(** The part of the function context the router reads: [context.req.method]
    and [context.bindingData.path] ([None] when the binding is absent). *)
Record Context : Type := {
  req_method : HttpMethod;
  bindingData_path : option string
}.

Abbreviation ParamsMap := (gmap string Js.Value).

Definition RouteHandler : Type :=
  Context -> ParamsMap -> Js.Promise HttpResponse.

Record Route : Type := {
  test : HttpMethod -> option string -> bool;
  handler : RouteHandler
}.

Record Router : Type := {
  routeHandlers : list (string * Route)
}.

(** [new Router()]. *)
Definition new_Router : Router := {| routeHandlers := [] |}.

(* ===================================================================== *)
(** ** [Router.addRoute] *)
(* ===================================================================== *)

(** The [for] loop of the closure [test]: [None] when the loop body returns
    [false], otherwise the value of [index] after the last iteration. *)
Fixpoint test_loop (pathParts urlParts : list string) (index : nat)
  : option nat :=
  match pathParts with
  | [] => Some index
  | part :: rest =>
      if negb (Js.startsWith part "(")
         && Js.strict_ne (Js.index urlParts index) part
      then None
      else test_loop rest urlParts (S index)
  end.

(** The closure [test] that [addRoute] builds over its [method] and its
    local [pathParts]; the parameter [url] defaults to the empty string. *)
Definition addRoute_test (method : HttpMethod) (pathParts : list string)
    (requestMethod : HttpMethod) (url : option string) : bool :=
  let url := default "" url in
  if negb (String.eqb (method_string requestMethod) (method_string method))
  then false
  else
    let urlParts := Js.split "/" url in
    match test_loop pathParts urlParts 0 with
    | None => false
    | Some index =>
        if negb (Nat.eqb index (length urlParts)) then false else true
    end.

(** The key under which a route is stored: [method + path]. *)
Definition route_key (method : HttpMethod) (path : string) : string :=
  String.append (method_string method) path.

Definition addRoute (method : HttpMethod) (path : string)
    (handler : RouteHandler) (this : Router) : Router :=
  let pathParts := Js.shift (Js.split "/" path) in
  {| routeHandlers :=
       JsMap.set (route_key method path)
         {| test := addRoute_test method pathParts; handler := handler |}
         (routeHandlers this) |}.

(* ===================================================================== *)
(** ** [Router.route] *)
(* ===================================================================== *)

(** The local [urlParts] of [route], the value of
    [context.bindingData.path && context.bindingData.path.split('/')]:
    [undefined] for an absent path, the empty string itself for an empty
    path (it is falsy), and the array of segments otherwise. *)
Inductive UrlParts : Type :=
| PartsUndefined
| PartsEmptyString
| PartsArray (parts : list string).

Definition route_urlParts (path : option string) : UrlParts :=
  match path with
  | None => PartsUndefined
  | Some s =>
      if String.eqb s "" then PartsEmptyString
      else PartsArray (Js.split "/" s)
  end.

(** [urlParts[index]]: reading a property of [undefined] throws, an index
    into the empty string is [undefined]. *)
Definition urlParts_at (urlParts : UrlParts) (index : nat)
  : Js.Error + Js.Value :=
  match urlParts with
  | PartsUndefined =>
      inl (Js.TypeError "Cannot read properties of undefined")
  | PartsEmptyString => inr Js.Undefined
  | PartsArray parts => inr (Js.index parts index)
  end.

(** The inner [for] loop of [route], which fills [params]. *)
Fixpoint route_params (pathParts : list string) (urlParts : UrlParts)
    (index : nat) (params : ParamsMap) : Js.Error + ParamsMap :=
  match pathParts with
  | [] => inr params
  | part :: rest =>
      if Js.startsWith part "(" then
        match urlParts_at urlParts index with
        | inl e => inl e
        | inr v =>
            route_params rest urlParts (S index)
              (Js.assign (Js.replace_parens part) v params)
        end
      else route_params rest urlParts (S index) params
  end.

(** One call of a handler, as the caller can observe it. *)
Record Invocation : Type := {
  called : RouteHandler;
  with_context : Context;
  with_params : ParamsMap
}.

(** What one call of [route] does: the handler calls it makes, in order,
    and how the promise it returns settles. *)
Record Outcome : Type := {
  invocations : list Invocation;
  settled : Js.Promise HttpResponse
}.

Definition not_found_response : HttpResponse :=
  {| headers := None; status := NOT_FOUND; body := Js.Null |}.

(** The body of the [if] inside the outer loop of [route]. *)
Definition route_matched (key : string) (value : Route) (context : Context)
  : Outcome :=
  let pathParts := Js.shift (Js.split "/" key) in
  let urlParts := route_urlParts (bindingData_path context) in
  match route_params pathParts urlParts 0 ∅ with
  | inl e => {| invocations := []; settled := Js.Rejected e |}
  | inr params =>
      {| invocations :=
           [ {| called := handler value; with_context := context;
                with_params := params |} ];
         settled := handler value context params |}
  end.

(** The outer loop of [route] over the entries of [this.routeHandlers];
    the router is threaded through as the state of the method. *)
Fixpoint route_loop (entries : list (string * Route)) (context : Context)
    (this : Router) : Router * Outcome :=
  match entries with
  | [] =>
      (this, {| invocations := [];
                settled := Js.Resolved not_found_response |})
  | (key, value) :: rest =>
      if test value (req_method context) (bindingData_path context)
      then (this, route_matched key value context)
      else route_loop rest context this
  end.

Definition route (context : Context) (this : Router) : Router * Outcome :=
  route_loop (routeHandlers this) context this.

(** Serving a sequence of requests with one router. *)
Fixpoint serve (requests : list Context) (this : Router)
  : Router * list Outcome :=
  match requests with
  | [] => (this, [])
  | context :: later =>
      let (this1, out) := route context this in
      let (this2, outs) := serve later this1 in
      (this2, out :: outs)
  end.

(** A sequence of registrations, applied in order. *)
Definition Registration : Type := HttpMethod * string * RouteHandler.

Definition addRoutes (regs : list Registration) (this : Router) : Router :=
  fold_left (fun r '(m, p, h) => addRoute m p h r) regs this.

(* ===================================================================== *)
(** ** Vocabulary of the specification *)
(* ===================================================================== *)

(** The segments of a pattern: the pieces of the raw path after the first
    one, which is empty when the path begins with a slash. *)
Definition pattern_parts (path : string) : list string :=
  Js.shift (Js.split "/" path).

(** The segments of a request path; an absent path counts as empty. *)
Definition request_parts (url : option string) : list string :=
  Js.split "/" (default "" url).

(** The test both loops apply to a pattern segment. *)
Definition param_segment (part : string) : bool := Js.startsWith part "(".

(** The name a parameter segment binds. *)
Definition param_name (part : string) : string := Js.replace_parens part.

(** The entry [addRoute] stores for [(method, path, handler)]. *)
Definition stored (method : HttpMethod) (path : string)
    (handler : RouteHandler) : Route :=
  {| test := addRoute_test method (pattern_parts path); handler := handler |}.

(** The entry a registration leaves in the collection. *)
Definition registration_entry (reg : Registration) : string * Route :=
  let '(m, p, h) := reg in (route_key m p, stored m p h).

(** [ends_with s c]: the last character of [s] is [c]. *)
Fixpoint ends_with (s : string) (c : ascii) : bool :=
  match s with
  | EmptyString => false
  | String c' EmptyString => Ascii.eqb c' c
  | String _ rest => ends_with rest c
  end.

(** A segment wrapped in the delimiter pair, in the words of the
    specification: it begins with an opening and ends with a closing
    parenthesis. *)
Definition wrapped (part : string) : bool :=
  Js.startsWith part "(" && ends_with part ")".

(** No earlier entry accepts the request. *)
Definition none_accepts (entries : list (string * Route)) (context : Context)
  : Prop :=
  Forall (fun e => test (snd e) (req_method context)
                     (bindingData_path context) = false) entries.

(** One handler call and the promise it returns, passed on as it is. *)
Definition hands_over (h : RouteHandler) (context : Context)
    (params : ParamsMap) : Outcome :=
  {| invocations :=
       [ {| called := h; with_context := context; with_params := params |} ];
     settled := h context params |}.

(* --------------------------------------------------------------------- *)
(** *** How one pattern segment is treated *)

(** The request segment at index [i] has no influence on the verdict. *)
Definition matches_any_value (r : Route) (method : HttpMethod) (i : nat)
  : Prop :=
  forall url url',
    length (request_parts url) = length (request_parts url') ->
    (forall j, j <> i -> request_parts url !! j = request_parts url' !! j) ->
    test r method url = test r method url'.

(** Only requests whose segment at index [i] is [part] are accepted. *)
Definition requires_equality (r : Route) (method : HttpMethod) (i : nat)
    (part : string) : Prop :=
  forall url, test r method url = true -> request_parts url !! i = Some part.

(** Whenever the handler is called, the name of [part] is a key of the
    ParamsMap ([__proto__] cannot become one). *)
Definition binds_its_name (method : HttpMethod) (path : string)
    (h : RouteHandler) (part : string) : Prop :=
  forall context (params : ParamsMap),
    route_matched (route_key method path) (stored method path h) context =
      hands_over h context params ->
    param_name part <> "__proto__" ->
    is_Some (params !! param_name part).

(** Every key of the ParamsMap comes from a segment other than the one at
    index [i]. *)
Definition binds_nothing (method : HttpMethod) (path : string)
    (h : RouteHandler) (i : nat) : Prop :=
  forall context (params : ParamsMap) name w,
    route_matched (route_key method path) (stored method path h) context =
      hands_over h context params ->
    params !! name = Some w ->
    exists j part',
      j <> i /\ pattern_parts path !! j = Some part' /\
      param_segment part' = true /\ param_name part' = name.

(* --------------------------------------------------------------------- *)
(** *** Collections that differ in one stored value *)

(** Two collections that differ at most in the value stored under the
    first occurrence of [k]. *)
Inductive differ_at {V} (k : string)
  : list (string * V) -> list (string * V) -> Prop :=
| differ_same m : differ_at k m m
| differ_here v v' rest : differ_at k ((k, v) :: rest) ((k, v') :: rest)
| differ_later k' v m m' :
    k' <> k -> differ_at k m m' -> differ_at k ((k', v) :: m) ((k', v) :: m').

(* --------------------------------------------------------------------- *)
(** *** Statements of the specification that the code does not meet as worded *)

(** The statement of C1 as the specification words it, at one router,
    route and request. *)
Definition binds_every_parameter (this : Router)
    (before : list (string * Route)) (method : HttpMethod) (path : string)
    (h : RouteHandler) (after : list (string * Route)) (context : Context)
  : Prop :=
  routeHandlers this =
    before ++ (route_key method path, stored method path h) :: after ->
  none_accepts before context ->
  req_method context = method ->
  length (request_parts (bindingData_path context)) =
    length (pattern_parts path) ->
  (forall i part,
      pattern_parts path !! i = Some part -> param_segment part = false ->
      request_parts (bindingData_path context) !! i = Some part) ->
  exists params,
    snd (route context this) = hands_over h context params /\
    forall i part,
      pattern_parts path !! i = Some part -> param_segment part = true ->
      exists seg,
        request_parts (bindingData_path context) !! i = Some seg /\
        params !! param_name part = Some (Js.Str seg).

(** The statement of C2 as the specification words it: the fallback
    response carries an [undefined] body. *)
Definition not_found_with_undefined_body (this : Router) (context : Context)
  : Prop :=
  none_accepts (routeHandlers this) context ->
  snd (route context this) =
  {| invocations := [];
     settled := Js.Resolved
       {| headers := None; status := 404; body := Js.Undefined |} |}.

(** The first half of C4 as the specification words it: whenever the root
    pattern is registered for GET, a GET request without a path remainder
    reaches its handler. *)
Definition root_always_handles (this : Router) (h : RouteHandler)
    (context : Context) : Prop :=
  JsMap.get (route_key GET "/") (routeHandlers this) =
    Some (stored GET "/" h) ->
  req_method context = GET ->
  bindingData_path context = None \/ bindingData_path context = Some "" ->
  snd (route context this) = hands_over h context ∅.

(** The statement of C6 as the specification words it: the segment is a
    parameter exactly when it is wrapped in the delimiter pair. *)
Definition delimiter_pair_decides (method : HttpMethod) (path : string)
    (h : RouteHandler) (i : nat) (part : string) : Prop :=
  pattern_parts path !! i = Some part ->
  (wrapped part = true ->
   matches_any_value (stored method path h) method i /\
   binds_its_name method path h part) /\
  (wrapped part = false ->
   requires_equality (stored method path h) method i part /\
   binds_nothing method path h i).

(** The statement of C10 as the specification words it: whenever such a
    route is in the router, a request without a path remainder makes
    [route] fail. *)
Definition absent_path_always_fails (this : Router) (method : HttpMethod)
    (path : string) (h : RouteHandler) (context : Context) : Prop :=
  JsMap.get (route_key method path) (routeHandlers this) =
    Some (stored method path h) ->
  (exists part, In part (pattern_parts path) /\ param_segment part = true) ->
  test (stored method path h) method None = true ->
  req_method context = method ->
  bindingData_path context = None ->
  exists message,
    snd (route context this) =
    {| invocations := [];
       settled := Js.Rejected (Js.TypeError message) |}.

(** The statement of C3 as the specification words it: the literal
    segments, which must equal the request's, are those not wrapped in the
    delimiter pair. *)
Definition accepts_iff_unwrapped_equal (method : HttpMethod) (path : string)
    (h : RouteHandler) (requestMethod : HttpMethod) (url : option string)
  : Prop :=
  test (stored method path h) requestMethod url = true <->
  requestMethod = method /\
  length (pattern_parts path) = length (request_parts url) /\
  (forall i part,
      pattern_parts path !! i = Some part -> wrapped part = false ->
      request_parts url !! i = Some part).

(** The statement of C5 as the specification words it: the handler of the
    first entry whose predicate accepts the request is called. *)
Definition first_accepting_is_called (this : Router)
    (before : list (string * Route)) (key : string) (value : Route)
    (after : list (string * Route)) (context : Context) : Prop :=
  routeHandlers this = before ++ (key, value) :: after ->
  none_accepts before context ->
  test value (req_method context) (bindingData_path context) = true ->
  exists params,
    snd (route context this) = hands_over (handler value) context params.

(** The dispatch half of C7 as the specification words it: once a pair has
    been registered twice, every request its predicate accepts reaches the
    later handler. *)
Definition later_handler_always_answers (regs between : list Registration)
    (method : HttpMethod) (path : string) (h1 h2 : RouteHandler)
    (context : Context) : Prop :=
  test (stored method path h2) (req_method context)
    (bindingData_path context) = true ->
  exists params,
    snd (route context
           (addRoute method path h2
              (addRoutes between
                 (addRoute method path h1 (addRoutes regs new_Router))))) =
    hands_over h2 context params.

(* ===================================================================== *)
(** ** Handlers and requests used in the examples *)
(* ===================================================================== *)

(** A handler that resolves with a fixed status and text, whatever it is
    given. *)
Definition respond (code : Z) (text : string) : RouteHandler :=
  fun _ _ =>
    Js.Resolved {| headers := None; status := code; body := Js.Str text |}.

(** A handler whose promise rejects. *)
Definition failing (e : Js.Error) : RouteHandler := fun _ _ => Js.Rejected e.

Definition request (method : HttpMethod) (path : option string) : Context :=
  {| req_method := method; bindingData_path := path |}.

(** Closed side conditions are settled by evaluation. *)
Ltac evaluate := vm_compute; first [reflexivity | discriminate | lia].

(** A hypothesis about the segment at an index of a concrete pattern: the
    index is split until the lookup evaluates. *)
Ltac at_segment Hi :=
  vm_compute in Hi; first [discriminate Hi | injection Hi as <-].

(* ===================================================================== *)
(** ** Further vocabulary: paths, and the entry a request selects *)
(* ===================================================================== *)

(** The number of slashes in a path. *)
Fixpoint slashes (s : string) : nat :=
  match s with
  | EmptyString => 0
  | String c rest => (if Ascii.eqb c "/" then 1 else 0) + slashes rest
  end.

(** The path contains no slash. *)
Fixpoint no_slash (s : string) : bool :=
  match s with
  | EmptyString => true
  | String c rest => negb (Ascii.eqb c "/") && no_slash rest
  end.

(** The name contains no parenthesis. *)
Fixpoint no_parens (s : string) : bool :=
  match s with
  | EmptyString => true
  | String c rest =>
      negb (Ascii.eqb c "(" || Ascii.eqb c ")") && no_parens rest
  end.

(** [parts.join('/')]. *)
Fixpoint join (parts : list string) : string :=
  match parts with
  | [] => EmptyString
  | [part] => part
  | part :: rest => part +:+ String "/" (join rest)
  end.

(** The entry at which the loop of [route] stops for a request: the first
    one, in the order of the collection, whose predicate accepts it. *)
Definition selected (entries : list (string * Route)) (context : Context)
  : option (string * Route) :=
  List.find
    (fun e => test (snd e) (req_method context) (bindingData_path context))
    entries.

(** What [route] does once the loop has stopped at an entry, or at none. *)
Definition outcome_of (choice : option (string * Route)) (context : Context)
  : Outcome :=
  match choice with
  | Some (key, value) => route_matched key value context
  | None =>
      {| invocations := []; settled := Js.Resolved not_found_response |}
  end.

(** A request path built from two patterns of equal length: at each index
    the literal of the first pattern, or else the segment of the second. *)
Fixpoint merge_parts (parts1 parts2 : list string) : list string :=
  match parts1, parts2 with
  | s1 :: rest1, s2 :: rest2 =>
      (if param_segment s1 then s2 else s1) :: merge_parts rest1 rest2
  | _, _ => []
  end.

(** The segments of two patterns are compatible: wherever both have a
    literal at the same index, the two literals are equal. *)
Definition literals_agree (parts1 parts2 : list string) : Prop :=
  forall i s1 s2,
    parts1 !! i = Some s1 -> parts2 !! i = Some s2 ->
    param_segment s1 = false -> param_segment s2 = false -> s1 = s2.

(* ===================================================================== *)
(** ** Strings and keys *)
(* ===================================================================== *)

Lemma split_not_nil sep s : Js.split sep s <> [].
Proof.
  destruct s as [|c rest]; simpl; [discriminate|].
  destruct (Ascii.eqb c sep); [discriminate|].
  destruct (Js.split sep rest); discriminate.
Qed.

Lemma length_split_pos sep s : 0 < length (Js.split sep s).
Proof.
  pose proof (split_not_nil sep s) as H.
  destruct (Js.split sep s); [congruence | simpl; lia].
Qed.

Lemma split_singleton sep s x : Js.split sep s = [x] -> x = s.
Proof.
  revert x. induction s as [|c rest IH]; intros x; simpl.
  - intros [= <-]. reflexivity.
  - destruct (Ascii.eqb c sep).
    + intros [= _ Hrest]. destruct (split_not_nil _ _ Hrest).
    + destruct (Js.split sep rest) as [|piece pieces] eqn:Hsplit.
      * destruct (split_not_nil _ _ Hsplit).
      * intros [= <- ->]. rewrite (IH piece eq_refl). reflexivity.
Qed.

(** The segments re-derived from the key are those of the raw path: no
    method contains a slash. *)
Lemma key_parts method path :
  Js.shift (Js.split "/" (route_key method path)) = pattern_parts path.
Proof.
  unfold route_key, pattern_parts, Js.shift.
  destruct method; cbv [method_string String.append]; simpl;
    destruct (Js.split "/" path); reflexivity.
Qed.

(** Distinct (method, path) pairs have distinct keys. *)
Lemma route_key_inj m1 p1 m2 p2 :
  route_key m1 p1 = route_key m2 p2 -> m1 = m2 /\ p1 = p2.
Proof.
  unfold route_key.
  destruct m1, m2; cbv [method_string String.append]; intros H;
    inversion H; auto.
Qed.

Lemma method_string_eqb m1 m2 :
  String.eqb (method_string m1) (method_string m2) = true <-> m1 = m2.
Proof.
  split; [|intros ->; apply String.eqb_refl].
  destruct m1, m2; simpl; intros H; try reflexivity; discriminate H.
Qed.

(* ===================================================================== *)
(** ** The match predicate *)
(* ===================================================================== *)

Lemma strict_ne_index_false (urlParts : list string) i part :
  Js.strict_ne (Js.index urlParts i) part = false <-> urlParts !! i = Some part.
Proof.
  unfold Js.index. destruct (urlParts !! i) as [s|]; simpl.
  - rewrite negb_false_iff, String.eqb_eq. split; congruence.
  - split; discriminate.
Qed.

(** What one iteration of the loop of [test] checks. *)
Lemma test_loop_cons part rest urlParts index :
  test_loop (part :: rest) urlParts index =
  if param_segment part then test_loop rest urlParts (S index)
  else if Js.strict_ne (Js.index urlParts index) part then None
       else test_loop rest urlParts (S index).
Proof.
  unfold param_segment. simpl. destruct (Js.startsWith part "("); simpl;
    [reflexivity|]. destruct (Js.strict_ne _ _); reflexivity.
Qed.

Lemma test_loop_index pathParts : forall urlParts index n,
  test_loop pathParts urlParts index = Some n -> n = index + length pathParts.
Proof.
  induction pathParts as [|part rest IH]; intros urlParts index n.
  - simpl. intros [= <-]. lia.
  - rewrite test_loop_cons.
    destruct (param_segment part); [|destruct (Js.strict_ne _ _)];
      try discriminate; intros H; apply IH in H; simpl; lia.
Qed.

Lemma test_loop_accepts pathParts : forall (urlParts : list string) index,
  is_Some (test_loop pathParts urlParts index) <->
  (forall j part, pathParts !! j = Some part -> param_segment part = false ->
                  urlParts !! (index + j) = Some part).
Proof.
  induction pathParts as [|part rest IH]; intros urlParts index.
  - simpl. split; [intros _ j part H; discriminate H | eauto].
  - rewrite test_loop_cons. split.
    + intros Hok [|j] part' Hj Hlit; simpl in Hj.
      * injection Hj as ->. rewrite Hlit in Hok.
        destruct (Js.strict_ne _ _) eqn:Hne; [destruct Hok; discriminate|].
        apply strict_ne_index_false in Hne.
        replace (index + 0) with index by lia. exact Hne.
      * assert (is_Some (test_loop rest urlParts (S index))) as Hrest.
        { destruct (param_segment part); [exact Hok|].
          destruct (Js.strict_ne _ _); [destruct Hok; discriminate|exact Hok]. }
        replace (index + S j) with (S index + j) by lia.
        eapply IH; eauto.
    + intros Hall.
      assert (is_Some (test_loop rest urlParts (S index))) as Hrest.
      { apply IH. intros j part' Hj Hlit.
        replace (S index + j) with (index + S j) by lia.
        apply Hall; auto. }
      destruct (param_segment part) eqn:Hp; [exact Hrest|].
      specialize (Hall 0 part eq_refl Hp).
      replace (index + 0) with index in Hall by lia.
      apply strict_ne_index_false in Hall. rewrite Hall. exact Hrest.
Qed.

(** The closure stored by [addRoute], characterised. *)
Lemma addRoute_test_true method pathParts requestMethod url :
  addRoute_test method pathParts requestMethod url = true <->
  requestMethod = method /\
  length pathParts = length (request_parts url) /\
  (forall j part, pathParts !! j = Some part -> param_segment part = false ->
                  request_parts url !! j = Some part).
Proof.
  unfold addRoute_test, request_parts.
  set (urlParts := Js.split "/" (default "" url)).
  destruct (String.eqb (method_string requestMethod) (method_string method))
    eqn:Hm; simpl.
  - apply method_string_eqb in Hm as ->.
    destruct (test_loop pathParts urlParts 0) as [n|] eqn:Hloop.
    + pose proof (test_loop_index _ _ _ _ Hloop) as Hn. simpl in Hn. subst n.
      assert (is_Some (test_loop pathParts urlParts 0)) as Hok by eauto.
      pose proof (proj1 (test_loop_accepts _ _ _) Hok) as Hall. simpl in Hall.
      destruct (Nat.eqb (length pathParts) (length urlParts)) eqn:Hlen; simpl.
      * apply Nat.eqb_eq in Hlen. tauto.
      * apply Nat.eqb_neq in Hlen. split; [discriminate|tauto].
    + split; [discriminate|]. intros (_ & _ & Hall).
      destruct (proj2 (test_loop_accepts pathParts urlParts 0) Hall)
        as [n Hn].
      congruence.
  - split; [discriminate|]. intros (-> & _).
    rewrite String.eqb_refl in Hm. discriminate.
Qed.

(** The root route accepts the absent and the empty path and no other. *)
Lemma root_test method h url :
  test (stored method "/" h) method url = true <->
  url = None \/ url = Some "".
Proof.
  simpl. rewrite addRoute_test_true. split.
  - intros (_ & Hlen & Hlit).
    specialize (Hlit 0 "" eq_refl eq_refl).
    destruct url as [url|]; [|tauto]. right. f_equal.
    unfold request_parts in *. simpl in *.
    destruct (Js.split "/" url) as [|x [|y rest]] eqn:Hsplit;
      try discriminate Hlen.
    injection Hlit as ->. symmetry. apply (split_singleton _ _ _ Hsplit).
  - intros [->| ->]; (split; [reflexivity|]); (split; [reflexivity|]);
      intros [|j] part; simpl; intros [= <-]; reflexivity.
Qed.

(* ===================================================================== *)
(** ** The route collection *)
(* ===================================================================== *)

Section Collection.

Context {V : Type}.
Implicit Types (m : list (string * V)) (k : string).

Lemma get_set_eq k (v : V) m : JsMap.get k (JsMap.set k v m) = Some v.
Proof.
  induction m as [|[k' v'] rest IH]; simpl.
  - rewrite String.eqb_refl. reflexivity.
  - destruct (String.eqb k' k) eqn:E; simpl.
    + rewrite String.eqb_refl. reflexivity.
    + rewrite E. exact IH.
Qed.

Lemma get_set_ne k k' (v : V) m :
  k <> k' -> JsMap.get k' (JsMap.set k v m) = JsMap.get k' m.
Proof.
  intros Hne. induction m as [|[k0 v0] rest IH]; simpl.
  - apply String.eqb_neq in Hne. rewrite Hne. reflexivity.
  - destruct (String.eqb k0 k) eqn:E; simpl.
    + apply String.eqb_eq in E. subst k0.
      apply String.eqb_neq in Hne. rewrite Hne. reflexivity.
    + rewrite IH. reflexivity.
Qed.

(** A key already present keeps its place and only changes its value. *)
Lemma keys_set_present k (v : V) m :
  In k (JsMap.keys m) -> JsMap.keys (JsMap.set k v m) = JsMap.keys m.
Proof.
  unfold JsMap.keys. induction m as [|[k' v'] rest IH]; simpl; [tauto|].
  intros Hin. destruct (String.eqb k' k) eqn:E; simpl.
  - apply String.eqb_eq in E. congruence.
  - apply String.eqb_neq in E. destruct Hin as [Hk|Hin]; [congruence|].
    rewrite IH by exact Hin. reflexivity.
Qed.

(** A new key is appended after all the others. *)
Lemma set_absent k (v : V) m :
  ~ In k (JsMap.keys m) -> JsMap.set k v m = m ++ [(k, v)].
Proof.
  unfold JsMap.keys. induction m as [|[k' v'] rest IH]; simpl; [reflexivity|].
  intros Hnot. destruct (String.eqb k' k) eqn:E.
  - apply String.eqb_eq in E. tauto.
  - rewrite IH by tauto. reflexivity.
Qed.

Lemma set_set k (v1 v2 : V) m :
  JsMap.set k v2 (JsMap.set k v1 m) = JsMap.set k v2 m.
Proof.
  induction m as [|[k' v'] rest IH]; simpl.
  - rewrite String.eqb_refl. reflexivity.
  - destruct (String.eqb k' k) eqn:E; simpl.
    + rewrite String.eqb_refl. reflexivity.
    + rewrite E, IH. reflexivity.
Qed.

Lemma keys_set_NoDup k (v : V) m :
  NoDup (JsMap.keys m) -> NoDup (JsMap.keys (JsMap.set k v m)).
Proof.
  intros Hnd. destruct (in_dec string_dec k (JsMap.keys m)) as [Hin|Hnot].
  - rewrite keys_set_present by exact Hin. exact Hnd.
  - rewrite set_absent by exact Hnot. unfold JsMap.keys in *.
    rewrite map_app. simpl. apply NoDup_app. split; [exact Hnd|]. split.
    + intros x Hx Hx'. apply list_elem_of_In in Hx.
      apply list_elem_of_In in Hx'. simpl in Hx'.
      destruct Hx' as [<-|[]]. tauto.
    + apply NoDup_singleton.
Qed.

Lemma get_In_NoDup k (v v' : V) m :
  NoDup (JsMap.keys m) -> JsMap.get k m = Some v -> In (k, v') m -> v' = v.
Proof.
  unfold JsMap.keys. induction m as [|[k0 v0] rest IH]; simpl;
    intros Hnd Hget Hin; [destruct Hin|].
  apply NoDup_cons in Hnd as [Hfresh Hnd].
  destruct (String.eqb k0 k) eqn:E.
  - apply String.eqb_eq in E. subst k0. injection Hget as <-.
    destruct Hin as [[= ->]|Hin]; [reflexivity|].
    exfalso. apply Hfresh. apply list_elem_of_In.
    change k with (fst (k, v')). apply in_map. exact Hin.
  - destruct Hin as [[= -> ->]|Hin].
    + rewrite String.eqb_refl in E. discriminate.
    + apply IH; assumption.
Qed.

Lemma differ_at_set_same k (v v' : V) m :
  differ_at k (JsMap.set k v m) (JsMap.set k v' m).
Proof.
  induction m as [|[k0 v0] rest IH]; simpl.
  - apply differ_here.
  - destruct (String.eqb k0 k) eqn:E.
    + apply differ_here.
    + apply differ_later; [apply String.eqb_neq; exact E | exact IH].
Qed.

Lemma differ_at_set k k2 (w : V) m m' :
  differ_at k m m' -> differ_at k (JsMap.set k2 w m) (JsMap.set k2 w m').
Proof.
  induction 1 as [m | v v' rest | k' v m m' Hne Hd IH]; simpl.
  - apply differ_same.
  - destruct (String.eqb k k2) eqn:E.
    + apply differ_same.
    + apply differ_here.
  - destruct (String.eqb k' k2) eqn:E.
    + apply String.eqb_eq in E. subst k2.
      apply differ_later; assumption.
    + apply differ_later; assumption.
Qed.

Lemma differ_at_overwrite k (v : V) m m' :
  differ_at k m m' -> JsMap.set k v m = JsMap.set k v m'.
Proof.
  induction 1 as [m | v1 v2 rest | k' v0 m m' Hne Hd IH]; simpl.
  - reflexivity.
  - rewrite String.eqb_refl. reflexivity.
  - apply String.eqb_neq in Hne. rewrite Hne, IH. reflexivity.
Qed.

End Collection.

Lemma addRoutes_app regs1 regs2 this :
  addRoutes (regs1 ++ regs2) this = addRoutes regs2 (addRoutes regs1 this).
Proof. unfold addRoutes. apply fold_left_app. Qed.

(** Registrations under pairwise distinct keys are stored in the order of
    the calls. *)
Lemma addRoutes_distinct_keys regs :
  NoDup (map (fun reg => fst (registration_entry reg)) regs) ->
  routeHandlers (addRoutes regs new_Router) = map registration_entry regs.
Proof.
  induction regs as [|[[m p] h] regs IH] using rev_ind; [reflexivity|].
  rewrite map_app, addRoutes_app, map_app. simpl.
  intros Hnd. apply NoDup_app in Hnd as (Hnd & Hfresh & _).
  unfold JsMap.set. fold (@JsMap.set Route).
  rewrite set_absent.
  - rewrite IH by exact Hnd. reflexivity.
  - rewrite IH by exact Hnd. unfold JsMap.keys. rewrite map_map.
    intros Hin. apply list_elem_of_In in Hin.
    apply (Hfresh _ Hin). simpl. left.
Qed.

Lemma addRoutes_keys_NoDup regs : forall this,
  NoDup (JsMap.keys (routeHandlers this)) ->
  NoDup (JsMap.keys (routeHandlers (addRoutes regs this))).
Proof.
  induction regs as [|[[m p] h] regs IH]; intros this Hnd; [exact Hnd|].
  simpl. apply IH. simpl. apply keys_set_NoDup. exact Hnd.
Qed.

Lemma differ_at_addRoutes k between : forall this this',
  differ_at k (routeHandlers this) (routeHandlers this') ->
  differ_at k (routeHandlers (addRoutes between this))
    (routeHandlers (addRoutes between this')).
Proof.
  induction between as [|[[m p] h] between IH]; intros this this' Hd;
    [exact Hd|].
  simpl. apply IH. simpl. apply differ_at_set. exact Hd.
Qed.

(* ===================================================================== *)
(** ** Dispatch *)
(* ===================================================================== *)

Lemma route_loop_state entries context this :
  fst (route_loop entries context this) = this.
Proof.
  induction entries as [|[key value] rest IH]; simpl; [reflexivity|].
  destruct (test value _ _); [reflexivity | exact IH].
Qed.

Lemma route_loop_none entries context this :
  none_accepts entries context ->
  snd (route_loop entries context this) =
  {| invocations := []; settled := Js.Resolved not_found_response |}.
Proof.
  induction 1 as [|[key value] rest Hno _ IH]; simpl; [reflexivity|].
  simpl in Hno. rewrite Hno. exact IH.
Qed.

Lemma route_loop_first before key value after context this :
  none_accepts before context ->
  test value (req_method context) (bindingData_path context) = true ->
  snd (route_loop (before ++ (key, value) :: after) context this) =
  route_matched key value context.
Proof.
  induction 1 as [|[k v] rest Hno _ IH]; simpl; intros Hyes.
  - rewrite Hyes. reflexivity.
  - simpl in Hno. rewrite Hno. apply IH. exact Hyes.
Qed.

(** The loop either finds no entry or stops at the first accepting one. *)
Lemma route_loop_cases entries context :
  none_accepts entries context \/
  exists before key value after,
    entries = before ++ (key, value) :: after /\
    none_accepts before context /\
    test value (req_method context) (bindingData_path context) = true.
Proof.
  induction entries as [|[key value] rest IH].
  - left. constructor.
  - destruct (test value (req_method context) (bindingData_path context))
      eqn:Hyes.
    + right. exists [], key, value, rest. repeat split; [constructor|exact Hyes].
    + destruct IH as [Hnone|(before & k & v & after & -> & Hno & Hv)].
      * left. constructor; assumption.
      * right. exists ((key, value) :: before), k, v, after.
        repeat split; [constructor; assumption | exact Hv].
Qed.

(** Every call [route_matched] makes is a call of the entry's handler on
    the request, and its promise is what [route] returns. *)
Lemma route_matched_cases key value context :
  (exists e, route_matched key value context =
             {| invocations := []; settled := Js.Rejected e |}) \/
  (exists params, route_matched key value context =
                  hands_over (handler value) context params).
Proof.
  unfold route_matched.
  destruct (route_params _ _ _ _) as [e|params]; [left|right]; eauto.
Qed.

Lemma route_matched_stored method path h context :
  route_matched (route_key method path) (stored method path h) context =
  match route_params (pattern_parts path)
          (route_urlParts (bindingData_path context)) 0 ∅ with
  | inl e => {| invocations := []; settled := Js.Rejected e |}
  | inr params => hands_over h context params
  end.
Proof. unfold route_matched. rewrite key_parts. reflexivity. Qed.

Lemma serve_route requests : forall this,
  serve requests this =
  (this, map (fun context => snd (route context this)) requests).
Proof.
  induction requests as [|context later IH]; intros this; simpl;
    [reflexivity|].
  destruct (route context this) as [this1 out] eqn:Hroute.
  assert (this1 = this) as ->.
  { change this1 with (fst (this1, out)). rewrite <- Hroute.
    apply route_loop_state. }
  rewrite IH. reflexivity.
Qed.

(* ===================================================================== *)
(** ** Parameter extraction *)
(* ===================================================================== *)

Lemma assign_lookup_same name v (params : ParamsMap) :
  name <> "__proto__" -> Js.assign name v params !! name = Some v.
Proof.
  intros Hne. unfold Js.assign. apply String.eqb_neq in Hne. rewrite Hne.
  apply lookup_insert_eq.
Qed.

Lemma assign_lookup_other name name' v (params : ParamsMap) :
  name <> name' -> Js.assign name v params !! name' = params !! name'.
Proof.
  intros Hne. unfold Js.assign. destruct (String.eqb name "__proto__");
    [reflexivity | apply lookup_insert_ne; exact Hne].
Qed.

Lemma assign_lookup_inv name name' v w (params : ParamsMap) :
  Js.assign name v params !! name' = Some w ->
  (name' = name /\ w = v) \/ params !! name' = Some w.
Proof.
  unfold Js.assign. destruct (String.eqb name "__proto__"); [tauto|].
  destruct (decide (name = name')) as [->|Hne].
  - rewrite lookup_insert_eq. intros [= ->]. tauto.
  - rewrite lookup_insert_ne by exact Hne. tauto.
Qed.

Lemma assign_keeps name v n (params : ParamsMap) :
  is_Some (params !! n) -> is_Some (Js.assign name v params !! n).
Proof.
  unfold Js.assign. destruct (String.eqb name "__proto__"); [auto|].
  intros Hn. apply lookup_insert_is_Some'. right. exact Hn.
Qed.

Lemma route_urlParts_array url :
  url <> "" -> route_urlParts (Some url) = PartsArray (request_parts (Some url)).
Proof.
  intros Hne. unfold route_urlParts. apply String.eqb_neq in Hne.
  rewrite Hne. reflexivity.
Qed.

Lemma index_in_range (a : list string) i w :
  i < length a -> Js.index a i = w -> exists seg, a !! i = Some seg /\ w = Js.Str seg.
Proof.
  intros Hlt <-. unfold Js.index.
  destruct (lookup_lt_is_Some_2 a i Hlt) as [seg Hseg].
  rewrite Hseg. eauto.
Qed.

Lemma literal_or_param (parts : list string) :
  (forall part, In part parts -> param_segment part = false) \/
  (exists part, In part parts /\ param_segment part = true).
Proof.
  induction parts as [|p rest IH].
  - left. intros part [].
  - destruct (param_segment p) eqn:Hp.
    + right. exists p. split; [left; reflexivity | exact Hp].
    + destruct IH as [Hall|(part & Hin & Hpart)].
      * left. intros part [<-|Hin]; auto.
      * right. exists part. split; [right; exact Hin | exact Hpart].
Qed.

(** Over an array the loop never throws. *)
Lemma route_params_array pathParts urlParts : forall index params,
  exists params',
    route_params pathParts (PartsArray urlParts) index params = inr params'.
Proof.
  induction pathParts as [|part rest IH]; intros index params; simpl; eauto.
  destruct (Js.startsWith part "("); apply IH.
Qed.

(** A pattern without parameter segments never reads [urlParts]. *)
Lemma route_params_literal pathParts urlParts : forall index params,
  (forall part, In part pathParts -> param_segment part = false) ->
  route_params pathParts urlParts index params = inr params.
Proof.
  induction pathParts as [|part rest IH]; intros index params Hlit; simpl;
    [reflexivity|].
  unfold param_segment in Hlit. rewrite (Hlit part) by (left; reflexivity).
  apply IH. intros p Hp. apply Hlit. right. exact Hp.
Qed.

(** Names that no parameter segment carries are left as they were. *)
Lemma route_params_untouched pathParts urlParts name :
  forall index params params',
  route_params pathParts urlParts index params = inr params' ->
  (forall part, In part pathParts -> param_segment part = true ->
                param_name part <> name) ->
  params' !! name = params !! name.
Proof.
  induction pathParts as [|part rest IH]; intros index params params';
    simpl; intros Hrun Hnames.
  - injection Hrun as <-. reflexivity.
  - destruct (Js.startsWith part "(") eqn:Hp.
    + destruct (urlParts_at urlParts index) as [e|v]; [discriminate|].
      rewrite (IH _ _ _ Hrun) by (intros p Hin; apply Hnames; right; exact Hin).
      apply assign_lookup_other. apply Hnames; [left; reflexivity | exact Hp].
    + apply (IH _ _ _ Hrun). intros p Hin. apply Hnames. right. exact Hin.
Qed.

(** Every name bound afterwards was bound before or is the name of a
    parameter segment. *)
Lemma route_params_names pathParts urlParts name w :
  forall index params params',
  route_params pathParts urlParts index params = inr params' ->
  params' !! name = Some w ->
  params !! name = Some w \/
  exists j part, pathParts !! j = Some part /\ param_segment part = true /\
                 param_name part = name /\
                 urlParts_at urlParts (index + j) = inr w.
Proof.
  induction pathParts as [|part rest IH]; intros index params params';
    simpl; intros Hrun Hw.
  - injection Hrun as <-. tauto.
  - destruct (Js.startsWith part "(") eqn:Hp.
    + destruct (urlParts_at urlParts index) as [e|v] eqn:Hat; [discriminate|].
      destruct (IH _ _ _ Hrun Hw) as [Hold|(j & p & Hj & Hpp & Hn & Hv)].
      * apply assign_lookup_inv in Hold as [[-> ->]|Hold]; [|tauto].
        right. exists 0, part. replace (index + 0) with index by lia. auto.
      * right. exists (S j), p.
        replace (index + S j) with (S index + j) by lia. auto.
    + destruct (IH _ _ _ Hrun Hw) as [Hold|(j & p & Hj & Hpp & Hn & Hv)];
        [tauto|].
      right. exists (S j), p.
      replace (index + S j) with (S index + j) by lia. auto.
Qed.

(** The last parameter segment carrying a name decides its value. *)
Lemma route_params_last pathParts urlParts :
  forall index params params' j part v,
  route_params pathParts urlParts index params = inr params' ->
  pathParts !! j = Some part ->
  param_segment part = true ->
  param_name part <> "__proto__" ->
  (forall j' part', j < j' -> pathParts !! j' = Some part' ->
                    param_segment part' = true ->
                    param_name part' <> param_name part) ->
  urlParts_at urlParts (index + j) = inr v ->
  params' !! param_name part = Some v.
Proof.
  induction pathParts as [|p rest IH];
    intros index params params' j part v Hrun Hj Hp Hproto Hlast Hv;
    [discriminate Hj|].
  simpl in Hrun. destruct j as [|j]; simpl in Hj.
  - injection Hj as ->. unfold param_segment in Hp. rewrite Hp in Hrun.
    replace (index + 0) with index in Hv by lia. rewrite Hv in Hrun.
    rewrite (route_params_untouched _ _ _ _ _ _ Hrun).
    + apply assign_lookup_same. exact Hproto.
    + intros q Hq Hqp. apply list_elem_of_In in Hq.
      apply list_elem_of_lookup in Hq as [j' Hj'].
      apply (Hlast (S j') q); [lia | exact Hj' | exact Hqp].
  - assert (forall j' part', j < j' -> rest !! j' = Some part' ->
              param_segment part' = true ->
              param_name part' <> param_name part) as Hlast'.
    { intros j' q Hlt Hq. apply (Hlast (S j') q); [lia | exact Hq]. }
    replace (index + S j) with (S index + j) in Hv by lia.
    destruct (Js.startsWith p "(").
    + destruct (urlParts_at urlParts index) as [e|v0]; [discriminate|].
      eapply IH; eauto.
    + eapply IH; eauto.
Qed.

Lemma route_params_keeps pathParts urlParts n :
  forall index (params params' : ParamsMap),
  route_params pathParts urlParts index params = inr params' ->
  is_Some (params !! n) -> is_Some (params' !! n).
Proof.
  induction pathParts as [|part rest IH]; intros index params params';
    simpl; intros Hrun Hn.
  - injection Hrun as <-. exact Hn.
  - destruct (Js.startsWith part "(").
    + destruct (urlParts_at urlParts index) as [e|v]; [discriminate|].
      apply (IH _ _ _ Hrun). apply assign_keeps. exact Hn.
    + apply (IH _ _ _ Hrun Hn).
Qed.

Lemma route_params_binds pathParts urlParts part :
  forall index (params params' : ParamsMap),
  route_params pathParts urlParts index params = inr params' ->
  In part pathParts -> param_segment part = true ->
  param_name part <> "__proto__" ->
  is_Some (params' !! param_name part).
Proof.
  induction pathParts as [|p rest IH]; intros index params params';
    simpl; intros Hrun Hin Hp Hproto; [destruct Hin|].
  destruct Hin as [->|Hin].
  - unfold param_segment in Hp. rewrite Hp in Hrun.
    destruct (urlParts_at urlParts index) as [e|v]; [discriminate|].
    apply (route_params_keeps _ _ _ _ _ _ Hrun).
    rewrite assign_lookup_same by exact Hproto. eauto.
  - destruct (Js.startsWith p "(").
    + destruct (urlParts_at urlParts index) as [e|v]; [discriminate|].
      apply (IH _ _ _ Hrun Hin Hp Hproto).
    + apply (IH _ _ _ Hrun Hin Hp Hproto).
Qed.

Lemma route_matched_params method path h context (params : ParamsMap) :
  route_matched (route_key method path) (stored method path h) context =
    hands_over h context params ->
  route_params (pattern_parts path)
    (route_urlParts (bindingData_path context)) 0 ∅ = inr params.
Proof.
  rewrite route_matched_stored.
  destruct (route_params _ _ _ _) as [e|params']; [discriminate|].
  intros [= ->]. reflexivity.
Qed.

(** The inner loop throws only when [urlParts] is [undefined]. *)
Lemma route_params_error pathParts urlParts e : forall index params,
  route_params pathParts urlParts index params = inl e ->
  urlParts = PartsUndefined /\
  e = Js.TypeError "Cannot read properties of undefined".
Proof.
  induction pathParts as [|part rest IH]; intros index params; simpl;
    [discriminate|].
  destruct (Js.startsWith part "("); [|apply IH].
  destruct urlParts; simpl; [intros [= <-]; auto | apply IH | apply IH].
Qed.

Lemma route_urlParts_undefined path :
  route_urlParts path = PartsUndefined -> path = None.
Proof.
  destruct path as [s|]; [|reflexivity]. simpl.
  destruct (String.eqb s ""); discriminate.
Qed.

(** The handler is called whenever the path remainder is present, and also
    without one when the key names no parameter. *)
Lemma route_matched_calls key value context :
  (bindingData_path context = None ->
   forall part, In part (Js.shift (Js.split "/" key)) ->
                param_segment part = false) ->
  exists params,
    route_matched key value context =
    hands_over (handler value) context params.
Proof.
  intros Hpresent. unfold route_matched.
  destruct (route_params _ _ 0 ∅) as [e|params] eqn:Hrun; [|eauto].
  exfalso. pose proof Hrun as Herr.
  apply route_params_error in Herr as [Hundef _].
  apply route_urlParts_undefined in Hundef.
  rewrite route_params_literal in Hrun by (apply Hpresent; exact Hundef).
  discriminate.
Qed.

(* ===================================================================== *)
(** ** Worked scenarios: the test suite and some corners *)
(* ===================================================================== *)

(** Method discrimination: the same path under two methods. *)
Example scenario_two_methods :
  let this :=
    addRoute PUT "/the/same/path" (respond 200 "put")
      (addRoute POST "/the/same/path" (respond 200 "post") new_Router) in
  settled (snd (route (request POST (Some "the/same/path")) this)) =
    Js.Resolved {| headers := None; status := 200; body := Js.Str "post" |} /\
  settled (snd (route (request PUT (Some "the/same/path")) this)) =
    Js.Resolved {| headers := None; status := 200; body := Js.Str "put" |}.
Proof. split; vm_compute; reflexivity. Qed.

(** A path that is longer than the pattern is not found. *)
Example scenario_longer_path :
  let this := addRoute GET "/users/(userId)" (respond 200 "user") new_Router in
  snd (route (request GET (Some "nodes/someNodeId/users/someUserId/access"))
         this) =
  {| invocations := []; settled := Js.Resolved not_found_response |}.
Proof. vm_compute. reflexivity. Qed.

(** Overlap: of [/route/(param)] and [/route/(param)/detail] only the
    second has three segments. *)
Example scenario_similar_routes :
  let this :=
    addRoute GET "/route/(param)/detail" (respond 200 "extended")
      (addRoute GET "/route/(param)" (respond 200 "basic") new_Router) in
  let context := request GET (Some "route/paramvalue/detail") in
  snd (route context this) =
  hands_over (respond 200 "extended") context
    (<["param" := Js.Str "paramvalue"]> ∅).
Proof. vm_compute. reflexivity. Qed.

(** An empty path against a parameter pattern: the index into the empty
    string is [undefined], and that is what the name is bound to. *)
Example scenario_empty_path_parameter :
  let this := addRoute GET "/(name)" (respond 200 "named") new_Router in
  let context := request GET (Some "") in
  snd (route context this) =
  hands_over (respond 200 "named") context (<["name" := Js.Undefined]> ∅).
Proof. vm_compute. reflexivity. Qed.

(** A parameter called [__proto__] leaves no property behind. *)
Example scenario_proto_parameter :
  let this := addRoute GET "/(__proto__)" (respond 200 "proto") new_Router in
  let context := request GET (Some "value") in
  snd (route context this) = hands_over (respond 200 "proto") context ∅.
Proof. vm_compute. reflexivity. Qed.

(** Registering a key again keeps the place of its first registration. *)
Example scenario_reregistration_keeps_place :
  JsMap.keys (routeHandlers
    (addRoutes [(GET, "/a/(x)", respond 200 "one");
                (GET, "/a/b", respond 200 "two");
                (GET, "/a/(x)", respond 200 "three")] new_Router)) =
  ["GET/a/(x)"; "GET/a/b"].
Proof. vm_compute. reflexivity. Qed.

(* ===================================================================== *)
(** ** The specification's statements, checked against the code *)
(* ===================================================================== *)

(** C1, counterexample.  With the pattern [/(a)/(a)] and the request path
    [x/y] the handler receives [{a: "y"}]: the name of the first parameter
    segment is not bound to the request segment at its index. *)
Lemma C1_counterexample :
  ~ binds_every_parameter
      (addRoute GET "/(a)/(a)" (respond 200 "ok") new_Router)
      [] GET "/(a)/(a)" (respond 200 "ok") []
      (request GET (Some "x/y")).
Proof.
  intros Hclaim.
  destruct Hclaim as (params & Hrun & Hbind).
  - vm_compute; reflexivity.
  - constructor.
  - reflexivity.
  - vm_compute; reflexivity.
  - intros [|[|i]] part Hi Hp; vm_compute in Hi; try discriminate Hi;
      injection Hi as <-; discriminate Hp.
  - destruct (Hbind 0 "(a)" eq_refl eq_refl) as (seg & Hseg & Hpar).
    injection Hseg as <-.
    assert (params = <["a" := Js.Str "y"]> (<["a" := Js.Str "x"]> ∅)) as ->.
    { apply (f_equal invocations) in Hrun. vm_compute in Hrun.
      injection Hrun as Hrun. rewrite <- Hrun. reflexivity. }
    rewrite lookup_insert_eq in Hpar. discriminate Hpar.
Qed.

(** C1, amended.  For every router and every registered route (method,
    pattern, handler), if the request's method equals the route's method,
    its path has exactly as many segments as the pattern, every literal
    pattern segment equals the request segment at the same index, no
    earlier-registered route matches, and the path remainder is present and
    not empty whenever the pattern has a parameter segment, then [route]
    invokes that handler exactly once and returns its result unmodified;
    the ParamsMap it passes binds every parameter name (all parentheses
    removed, the name [__proto__] apart) to the request segment at the
    index of the last parameter segment carrying that name.  The last
    conjunct adds that the ParamsMap has no other key. *)
Theorem C1_dispatch_binds_last :
  forall this before method path h after context,
  routeHandlers this =
    before ++ (route_key method path, stored method path h) :: after ->
  none_accepts before context ->
  req_method context = method ->
  length (request_parts (bindingData_path context)) =
    length (pattern_parts path) ->
  (forall i part,
      pattern_parts path !! i = Some part -> param_segment part = false ->
      request_parts (bindingData_path context) !! i = Some part) ->
  (forall part,
      In part (pattern_parts path) -> param_segment part = true ->
      exists url, bindingData_path context = Some url /\ url <> "") ->
  exists params,
    snd (route context this) = hands_over h context params /\
    (forall i part,
        pattern_parts path !! i = Some part -> param_segment part = true ->
        param_name part <> "__proto__" ->
        (forall i' part',
            i < i' -> pattern_parts path !! i' = Some part' ->
            param_segment part' = true ->
            param_name part' <> param_name part) ->
        exists seg,
          request_parts (bindingData_path context) !! i = Some seg /\
          params !! param_name part = Some (Js.Str seg)) /\
    (forall name w,
        params !! name = Some w ->
        exists i part seg,
          pattern_parts path !! i = Some part /\
          param_segment part = true /\ param_name part = name /\
          request_parts (bindingData_path context) !! i = Some seg /\
          w = Js.Str seg).
Proof.
  intros this before method path h after context
    Hreg Hnone Hmethod Hlen Hlit Hpresent.
  assert (test (stored method path h) (req_method context)
            (bindingData_path context) = true) as Hyes.
  { simpl. apply addRoute_test_true. auto. }
  unfold route. rewrite Hreg, (route_loop_first _ _ _ _ _ _ Hnone Hyes).
  rewrite route_matched_stored.
  destruct (route_params (pattern_parts path)
              (route_urlParts (bindingData_path context)) 0 ∅)
    as [e|params] eqn:Hrun.
  - (* the loop threw: some parameter segment read [urlParts] *)
    exfalso.
    destruct (literal_or_param (pattern_parts path))
      as [Hall|(part & Hin & Hp)].
    + rewrite route_params_literal in Hrun; [discriminate | exact Hall].
    + destruct (Hpresent part Hin Hp) as (url & Hurl & Hne).
      rewrite Hurl, (route_urlParts_array _ Hne) in Hrun.
      destruct (route_params_array (pattern_parts path)
                  (request_parts (Some url)) 0 ∅) as [p' Hp'].
      congruence.
  - exists params. split; [reflexivity|]. split.
    + intros i part Hi Hp Hproto Hlast.
      assert (In part (pattern_parts path)) as Hin.
      { apply list_elem_of_In, list_elem_of_lookup. eauto. }
      destruct (Hpresent part Hin Hp) as (url & Hurl & Hne).
      rewrite Hurl, (route_urlParts_array _ Hne) in Hrun. rewrite Hurl.
      assert (i < length (request_parts (Some url))) as Hrange.
      { rewrite <- Hurl, Hlen. apply lookup_lt_Some in Hi. exact Hi. }
      destruct (index_in_range _ _ _ Hrange eq_refl) as (seg & Hseg & Hw).
      exists seg. split; [exact Hseg|].
      eapply (route_params_last _ _ 0 _ _ i part); eauto.
      simpl. rewrite Hw. reflexivity.
    + intros name w Hw.
      destruct (route_params_names _ _ _ _ _ _ _ Hrun Hw)
        as [Hold|(i & part & Hi & Hp & Hname & Hat)].
      { rewrite lookup_empty in Hold. discriminate. }
      assert (In part (pattern_parts path)) as Hin.
      { apply list_elem_of_In, list_elem_of_lookup. eauto. }
      destruct (Hpresent part Hin Hp) as (url & Hurl & Hne).
      rewrite Hurl, (route_urlParts_array _ Hne) in Hat. rewrite Hurl.
      simpl in Hat. injection Hat as Hat.
      assert (i < length (request_parts (Some url))) as Hrange.
      { rewrite <- Hurl, Hlen. apply lookup_lt_Some in Hi. exact Hi. }
      destruct (index_in_range _ _ _ Hrange Hat) as (seg & Hseg & ->).
      exists i, part, seg. auto.
Qed.

(** C1, witness: the two-parameter route of the test suite. *)
Lemma C1_dispatch_binds_last_witness :
  let h := respond 200 "access" in
  let this :=
    addRoute POST "/nodes/(nodeId)/users/(userId)/access" h new_Router in
  let context :=
    request POST (Some "nodes/someNodeId/users/someUserId/access") in
  exists params : ParamsMap,
    snd (route context this) = hands_over h context params /\
    params !! "nodeId" = Some (Js.Str "someNodeId") /\
    params !! "userId" = Some (Js.Str "someUserId") /\
    forall name w,
      params !! name = Some w -> name = "nodeId" \/ name = "userId".
Proof.
  intros h this context.
  destruct (C1_dispatch_binds_last this [] POST
              "/nodes/(nodeId)/users/(userId)/access" h [] context)
    as (params & Hrun & Hbind & Hdom).
  - evaluate.
  - constructor.
  - evaluate.
  - evaluate.
  - intros [|[|[|[|[|i]]]]] part Hi Hp; at_segment Hi;
      first [discriminate Hp | evaluate].
  - intros part _ _.
    exists "nodes/someNodeId/users/someUserId/access".
    split; [reflexivity | discriminate].
  - exists params. split; [exact Hrun|]. split; [|split].
    + destruct (Hbind 1 "(nodeId)") as (seg & Hseg & Hpar);
        [evaluate | evaluate | evaluate | | ].
      * intros [|[|[|[|[|i]]]]] part' Hlt Hi Hp; at_segment Hi;
          first [discriminate Hp | lia | evaluate].
      * at_segment Hseg. exact Hpar.
    + destruct (Hbind 3 "(userId)") as (seg & Hseg & Hpar);
        [evaluate | evaluate | evaluate | | ].
      * intros [|[|[|[|[|i]]]]] part' Hlt Hi Hp; at_segment Hi;
          first [discriminate Hp | lia | evaluate].
      * at_segment Hseg. exact Hpar.
    + intros name w Hw.
      destruct (Hdom name w Hw) as (i & part & seg & Hi & Hp & Hname & _).
      destruct i as [|[|[|[|[|i]]]]]; at_segment Hi;
        first [discriminate Hp | subst name; vm_compute; tauto].
Defined.

(** C2, counterexample.  A router without routes answers any request with
    a body that is [null], not [undefined]. *)
Lemma C2_counterexample :
  ~ not_found_with_undefined_body new_Router (request GET (Some "users")).
Proof.
  intros Hclaim.
  assert (none_accepts (routeHandlers new_Router)
            (request GET (Some "users"))) as Hnone by constructor.
  specialize (Hclaim Hnone). discriminate Hclaim.
Qed.

(** C2, amended.  For every router and every request such that no
    registered route's predicate returns true for (request method, request
    path), [route] resolves to exactly [{status: 404, body: null}] and
    invokes no handler. *)
Theorem C2_not_found_null_body :
  forall this context,
  none_accepts (routeHandlers this) context ->
  snd (route context this) =
  {| invocations := [];
     settled := Js.Resolved
       {| headers := None; status := 404; body := Js.Null |} |}.
Proof. intros this context Hnone. apply route_loop_none. exact Hnone. Qed.

(** C2, witness: a DELETE request against a route registered for GET. *)
Lemma C2_not_found_null_body_witness :
  let this := addRoute GET "/users/(userId)" (respond 200 "user") new_Router in
  let context := request DELETE (Some "users/someUserId") in
  none_accepts (routeHandlers this) context /\
  snd (route context this) =
  {| invocations := [];
     settled := Js.Resolved
       {| headers := None; status := 404; body := Js.Null |} |}.
Proof.
  intros this context.
  assert (none_accepts (routeHandlers this) context) as Hnone.
  { constructor; [evaluate | constructor]. }
  split; [exact Hnone | exact (C2_not_found_null_body this context Hnone)].
Defined.

(** C3, counterexample.  The segment [(id)x] of the pattern [/users/(id)x]
    is not wrapped in the delimiter pair, so the statement counts it as a
    literal; the stored predicate accepts the path [users/42] all the same,
    although the segment [42] is not equal to it. *)
Lemma C3_counterexample :
  ~ accepts_iff_unwrapped_equal GET "/users/(id)x" (respond 200 "user")
      GET (Some "users/42").
Proof.
  intros [Honly _].
  destruct Honly as (_ & _ & Hequal); [vm_compute; reflexivity|].
  assert (request_parts (Some "users/42") !! 1 = Some "(id)x") as Hseg
    by (apply Hequal; vm_compute; reflexivity).
  vm_compute in Hseg. discriminate Hseg.
Qed.

(** C3, amended.  For every route registered via
    [addRoute method path handler] and every [(requestMethod, url)], the
    stored predicate [test] returns true if and only if [requestMethod]
    equals [method], the number of pattern segments (the pieces of [path]
    after the first one) equals the number of request-path segments, and
    every pattern segment that does not begin with ['('] equals the
    request segment at the same index; nothing is asked of the request
    segment facing a segment that begins with ['(']. *)
Theorem C3_stored_test_iff :
  forall this method path h,
  exists r,
    JsMap.get (route_key method path)
      (routeHandlers (addRoute method path h this)) = Some r /\
    handler r = h /\
    forall requestMethod url,
      test r requestMethod url = true <->
      requestMethod = method /\
      length (pattern_parts path) = length (request_parts url) /\
      (forall i part,
          pattern_parts path !! i = Some part ->
          param_segment part = false ->
          request_parts url !! i = Some part).
Proof.
  intros this method path h. exists (stored method path h).
  split; [|split].
  - unfold addRoute. simpl. apply get_set_eq.
  - reflexivity.
  - intros requestMethod url. simpl. apply addRoute_test_true.
Qed.

(** C3, witness: the route [POST /users/(userId)] accepts the path
    [users/someUserId] for POST, and rejects it for DELETE and the path
    [nodes/someNodeId] for POST. *)
Lemma C3_stored_test_iff_witness :
  let r := stored POST "/users/(userId)" (respond 200 "user") in
  test r POST (Some "users/someUserId") = true /\
  test r DELETE (Some "users/someUserId") = false /\
  test r POST (Some "nodes/someNodeId") = false.
Proof.
  intros r.
  destruct (C3_stored_test_iff new_Router POST "/users/(userId)"
              (respond 200 "user")) as (r' & Hget & _ & Hiff).
  cbv [addRoute routeHandlers] in Hget. rewrite get_set_eq in Hget. injection Hget as <-. fold r in Hiff.
  split; [|split].
  - apply Hiff. split; [reflexivity|]. split; [vm_compute; reflexivity|].
    intros [|[|i]] part Hi Hp; vm_compute in Hi; try discriminate Hi;
      injection Hi as <-; [vm_compute; reflexivity | discriminate Hp].
  - destruct (test r DELETE (Some "users/someUserId")) eqn:Hyes;
      [|reflexivity].
    apply Hiff in Hyes as (Hmethod & _). discriminate Hmethod.
  - destruct (test r POST (Some "nodes/someNodeId")) eqn:Hyes;
      [|reflexivity].
    apply Hiff in Hyes as (_ & _ & Hequal).
    assert (request_parts (Some "nodes/someNodeId") !! 0 = Some "users")
      as Hseg by (apply Hequal; vm_compute; reflexivity).
    vm_compute in Hseg. discriminate Hseg.
Defined.

(** C4, counterexample.  With [/(id)] registered before [/], a GET request
    with an empty path remainder is handled by the route [/(id)]: the
    handler of the root route is not invoked. *)
Lemma C4_counterexample :
  ~ root_always_handles
      (addRoute GET "/" (respond 200 "root")
         (addRoute GET "/(id)" (respond 200 "item") new_Router))
      (respond 200 "root") (request GET (Some "")).
Proof.
  intros Hclaim.
  assert (snd (route (request GET (Some ""))
                 (addRoute GET "/" (respond 200 "root")
                    (addRoute GET "/(id)" (respond 200 "item") new_Router))) =
          hands_over (respond 200 "root") (request GET (Some "")) ∅) as Hrun.
  { apply Hclaim; [vm_compute; reflexivity | reflexivity | right; reflexivity]. }
  apply (f_equal settled) in Hrun. vm_compute in Hrun. discriminate Hrun.
Qed.

(** C4, amended.  For a router in which pattern [/] is registered with
    method GET and no route registered before it accepts the request,
    dispatching a GET request whose path remainder is absent or the empty
    string invokes that route's handler with an empty ParamsMap; and a GET
    request with any non-empty path remainder does not match the root
    route. *)
Theorem C4_root_route :
  forall this before h after context,
  routeHandlers this =
    before ++ (route_key GET "/", stored GET "/" h) :: after ->
  none_accepts before context ->
  req_method context = GET ->
  (bindingData_path context = None \/ bindingData_path context = Some "" ->
   snd (route context this) = hands_over h context ∅) /\
  (forall url, url <> "" -> test (stored GET "/" h) GET (Some url) = false).
Proof.
  intros this before h after context Hreg Hnone Hmethod. split.
  - intros Hpath.
    assert (test (stored GET "/" h) (req_method context)
              (bindingData_path context) = true) as Hyes.
    { rewrite Hmethod. apply root_test. exact Hpath. }
    unfold route. rewrite Hreg, (route_loop_first _ _ _ _ _ _ Hnone Hyes).
    rewrite route_matched_stored, route_params_literal; [reflexivity|].
    intros part [<-|[]]. reflexivity.
  - intros url Hne.
    destruct (test (stored GET "/" h) GET (Some url)) eqn:Hyes;
      [|reflexivity].
    apply root_test in Hyes as [Hyes|Hyes]; congruence.
Qed.

(** C4, witness: the root route next to an ordinary one, as in the test
    suite, asked without a path remainder. *)
Lemma C4_root_route_witness :
  let h := respond 200 "root" in
  let this :=
    addRoute GET "/some/path" (respond 200 "other") (addRoute GET "/" h new_Router) in
  let context := request GET None in
  snd (route context this) = hands_over h context ∅ /\
  test (stored GET "/" h) GET (Some "some/path") = false.
Proof.
  intros h this context.
  destruct (C4_root_route this [] h
              [(route_key GET "/some/path",
                stored GET "/some/path" (respond 200 "other"))] context)
    as [Hempty Hother].
  - vm_compute; reflexivity.
  - constructor.
  - reflexivity.
  - split; [apply Hempty; left; reflexivity | apply Hother; discriminate].
Defined.

(** C5, the failing input.  The route [/(name)] is the only entry and its
    predicate accepts a GET request without a path remainder, yet [route]
    calls no handler: [urlParts] is [undefined], the index into it throws,
    and the promise rejects with a TypeError.  The predicate took the
    absent path for the empty string; the extraction loop did not. *)
Theorem C5_absent_path_no_dispatch :
  let h := respond 200 "named" in
  let this := addRoute GET "/(name)" h new_Router in
  let context := request GET None in
  routeHandlers this = [(route_key GET "/(name)", stored GET "/(name)" h)] /\
  test (stored GET "/(name)" h) GET None = true /\
  snd (route context this) =
    {| invocations := [];
       settled := Js.Rejected
         (Js.TypeError "Cannot read properties of undefined") |} /\
  ~ first_accepting_is_called this []
      (route_key GET "/(name)") (stored GET "/(name)" h) [] context.
Proof.
  intros h this context.
  assert (snd (route context this) =
          {| invocations := [];
             settled := Js.Rejected
               (Js.TypeError "Cannot read properties of undefined") |})
    as Hrun by (vm_compute; reflexivity).
  split; [vm_compute; reflexivity|]. split; [vm_compute; reflexivity|].
  split; [exact Hrun|].
  intros Hclaim. destruct Hclaim as [params Hcall].
  - vm_compute; reflexivity.
  - constructor.
  - vm_compute; reflexivity.
  - rewrite Hrun in Hcall. discriminate Hcall.
Qed.

(** C6, counterexample.  The segment [(id] of the pattern [/users/(id] is
    not wrapped in the delimiter pair, yet the route accepts the path
    [users/42], whose segment at that index is not [(id]. *)
Lemma C6_counterexample :
  ~ delimiter_pair_decides GET "/users/(id" (respond 200 "user") 1 "(id".
Proof.
  intros Hclaim. destruct Hclaim as [_ Hliteral]; [vm_compute; reflexivity|].
  destruct Hliteral as [Hequal _]; [vm_compute; reflexivity|].
  specialize (Hequal (Some "users/42")).
  assert (request_parts (Some "users/42") !! 1 = Some "(id") as Hseg.
  { apply Hequal. vm_compute. reflexivity. }
  vm_compute in Hseg. discriminate Hseg.
Qed.

(** C6, amended.  For every pattern segment, the segment is treated as a
    parameter segment (matching any request value and binding a name) if
    and only if it begins with ['(']; whether it ends with [')'] is not
    looked at.  Every other segment is treated as a literal requiring exact
    string equality (and no key of the ParamsMap comes from it). *)
Theorem C6_parameter_iff_opening_parenthesis :
  forall method path h i part,
  pattern_parts path !! i = Some part ->
  (Js.startsWith part "(" = true ->
   matches_any_value (stored method path h) method i /\
   binds_its_name method path h part) /\
  (Js.startsWith part "(" = false ->
   requires_equality (stored method path h) method i part /\
   binds_nothing method path h i).
Proof.
  intros method path h i part Hi. split; intros Hp; split.
  - assert (forall url url',
              length (request_parts url) = length (request_parts url') ->
              (forall j, j <> i ->
                         request_parts url !! j = request_parts url' !! j) ->
              test (stored method path h) method url = true ->
              test (stored method path h) method url' = true) as Hmono.
    { intros url url' Hlen Hagree Hyes. simpl in *.
      apply addRoute_test_true in Hyes as (_ & Hlen' & Hlit).
      apply addRoute_test_true. split; [reflexivity|].
      split; [congruence|]. intros j part' Hj Hlit'.
      destruct (decide (j = i)) as [->|Hne].
      - unfold param_segment in Hlit'. congruence.
      - rewrite <- (Hagree j Hne). apply Hlit; assumption. }
    intros url url' Hlen Hagree.
    destruct (test (stored method path h) method url) eqn:Hu;
      destruct (test (stored method path h) method url') eqn:Hu';
      try reflexivity.
    + rewrite (Hmono url url' Hlen Hagree Hu) in Hu'. discriminate.
    + rewrite (Hmono url' url) in Hu; auto. intros j Hne. symmetry. auto.
  - intros context params Hrun Hproto.
    apply route_matched_params in Hrun.
    apply (route_params_binds _ _ _ _ _ _ Hrun); auto.
    apply list_elem_of_In, list_elem_of_lookup. eauto.
  - intros url Hyes. simpl in Hyes.
    apply addRoute_test_true in Hyes as (_ & _ & Hlit).
    apply Hlit; assumption.
  - intros context params name w Hrun Hw.
    apply route_matched_params in Hrun.
    destruct (route_params_names _ _ _ _ _ _ _ Hrun Hw)
      as [Hold|(j & part' & Hj & Hp' & Hname & _)].
    { rewrite lookup_empty in Hold. discriminate. }
    exists j, part'. split; [|auto].
    intros ->. unfold param_segment in Hp'. congruence.
Qed.

(** C6, witness: the pattern [/users/(id] of the counterexample; its
    second segment acts as a parameter, its first as a literal. *)
Lemma C6_parameter_iff_opening_parenthesis_witness :
  let h := respond 200 "user" in
  (matches_any_value (stored GET "/users/(id" h) GET 1 /\
   binds_its_name GET "/users/(id" h "(id") /\
  (requires_equality (stored GET "/users/(id" h) GET 0 "users" /\
   binds_nothing GET "/users/(id" h 0).
Proof.
  intros h. split.
  - apply (C6_parameter_iff_opening_parenthesis GET "/users/(id" h 1 "(id");
      vm_compute; reflexivity.
  - apply (C6_parameter_iff_opening_parenthesis GET "/users/(id" h 0 "users");
      vm_compute; reflexivity.
Defined.

(** C7, counterexample.  With [/(id)] registered first and [/x] registered
    twice after it, a GET request for the path [x] is accepted by the
    predicate of [/x] but answered by the handler of [/(id)]: the later
    handler of [/x] is not called. *)
Lemma C7_counterexample :
  ~ later_handler_always_answers
      [(GET, "/(id)", respond 200 "item")] []
      GET "/x" (respond 200 "old") (respond 200 "new")
      (request GET (Some "x")).
Proof.
  intros Hclaim. destruct Hclaim as [params Hrun];
    [vm_compute; reflexivity|].
  apply (f_equal settled) in Hrun. vm_compute in Hrun. discriminate Hrun.
Qed.

(** C7, amended.  For every router, calling [addRoute] twice with the same
    method and the same raw path string stores only the second
    registration: the single entry under the key carries the handler of
    the later call, the resulting router is the same whatever handler the
    earlier call supplied (so that handler is never invoked through it)
    and serves every request as if both calls had supplied the later
    handler, and two calls in a row leave the router that the later call
    alone would leave.  A subsequent request that this route is the first
    registered route to accept is handed to the later handler, and the
    handler is called, exactly once, whenever the path remainder is
    present or the pattern has no parameter segment. *)
Theorem C7_last_registration_wins :
  forall regs between method path h1 h2,
  let this := addRoutes regs new_Router in
  let final h :=
    addRoute method path h2 (addRoutes between (addRoute method path h this)) in
  JsMap.get (route_key method path) (routeHandlers (final h1)) =
    Some (stored method path h2) /\
  (forall value,
      In (route_key method path, value) (routeHandlers (final h1)) ->
      value = stored method path h2) /\
  (forall h1', final h1 = final h1') /\
  (forall context, route context (final h1) = route context (final h2)) /\
  addRoute method path h2 (addRoute method path h1 this) =
    addRoute method path h2 this /\
  (forall context before value after,
      routeHandlers (final h1) =
        before ++ (route_key method path, value) :: after ->
      none_accepts before context ->
      test value (req_method context) (bindingData_path context) = true ->
      snd (route context (final h1)) =
        route_matched (route_key method path) (stored method path h2) context /\
      (forall inv, In inv (invocations (snd (route context (final h1)))) ->
                   called inv = h2) /\
      ((bindingData_path context = None ->
        forall part, In part (pattern_parts path) ->
                     param_segment part = false) ->
       exists params,
         snd (route context (final h1)) = hands_over h2 context params)).
Proof.
  intros regs between method path h1 h2 this final.
  assert (JsMap.get (route_key method path) (routeHandlers (final h1)) =
          Some (stored method path h2)) as Hget.
  { unfold final, addRoute at 1. simpl. apply get_set_eq. }
  assert (forall value,
             In (route_key method path, value) (routeHandlers (final h1)) ->
             value = stored method path h2) as Honly.
  { intros value Hin. eapply get_In_NoDup; [|exact Hget|exact Hin].
    unfold final, addRoute at 1. simpl. apply keys_set_NoDup.
    apply addRoutes_keys_NoDup. simpl. apply keys_set_NoDup.
    apply addRoutes_keys_NoDup. constructor. }
  assert (forall h1', final h1 = final h1') as Hsame.
  { intros h1'. unfold final, addRoute at 1 3. f_equal.
    apply differ_at_overwrite, differ_at_addRoutes. simpl.
    apply differ_at_set_same. }
  split; [exact Hget|]. split; [exact Honly|]. split; [exact Hsame|].
  split; [|split].
  - intros context. rewrite (Hsame h2). reflexivity.
  - unfold addRoute. simpl. f_equal. apply set_set.
  - intros context before value after Hreg Hnone Hyes.
    assert (value = stored method path h2) as ->.
    { apply Honly. rewrite Hreg. apply in_elt. }
    unfold route. rewrite Hreg, (route_loop_first _ _ _ _ _ _ Hnone Hyes).
    split; [reflexivity|]. split.
    + intros inv Hin.
      destruct (route_matched_cases (route_key method path)
                  (stored method path h2) context) as [[e He]|[ps Hps]].
      * rewrite He in Hin. destruct Hin.
      * rewrite Hps in Hin. destruct Hin as [<-|[]]. reflexivity.
    + intros Hpresent.
      apply (route_matched_calls (route_key method path)
               (stored method path h2) context).
      rewrite key_parts. exact Hpresent.
Qed.

(** C7, witness: a route registered twice with another registration in
    between; the request is answered by the later handler. *)
Lemma C7_last_registration_wins_witness :
  let old := respond 200 "old" in
  let new := respond 200 "new" in
  let this :=
    addRoute GET "/users/(userId)" new
      (addRoutes [(GET, "/ping", respond 200 "pong")]
         (addRoute GET "/users/(userId)" old (addRoutes [] new_Router))) in
  let context := request GET (Some "users/someUserId") in
  JsMap.keys (routeHandlers this) = ["GET/users/(userId)"; "GET/ping"] /\
  snd (route context this) =
    hands_over new context (<["userId" := Js.Str "someUserId"]> ∅).
Proof.
  intros old new this context. split; [vm_compute; reflexivity|].
  destruct (C7_last_registration_wins []
              [(GET, "/ping", respond 200 "pong")]
              GET "/users/(userId)" old new)
    as (_ & _ & _ & _ & _ & Hdispatch).
  destruct (Hdispatch context [] (stored GET "/users/(userId)" new)
              [(route_key GET "/ping", stored GET "/ping" (respond 200 "pong"))])
    as (_ & _ & Hcalled).
  - vm_compute; reflexivity.
  - constructor.
  - vm_compute; reflexivity.
  - destruct Hcalled as [params Hrun]; [discriminate|].
    fold this in Hrun. rewrite Hrun. f_equal.
    apply (f_equal invocations) in Hrun. vm_compute in Hrun.
    injection Hrun as Hrun. rewrite <- Hrun. reflexivity.
Defined.

(** C8.  For every router state and every request, executing [route]
    leaves the router's route collection unchanged, and any sequence of
    [route] calls observes the same registrations: each call of the
    sequence has the outcome it would have on the initial router. *)
Theorem C8_route_preserves_router :
  forall this,
  (forall context,
      routeHandlers (fst (route context this)) = routeHandlers this) /\
  (forall requests,
      routeHandlers (fst (serve requests this)) = routeHandlers this /\
      snd (serve requests this) =
      map (fun context => snd (route context this)) requests).
Proof.
  intros this. split.
  - intros context. unfold route. rewrite route_loop_state. reflexivity.
  - intros requests. rewrite serve_route. split; reflexivity.
Qed.

(** C9.  Whenever [route] invokes a handler and the promise that handler
    returns rejects with error [e], the promise [route] returns rejects
    with that same [e]; the handler is not called again and no other
    handler is tried. *)
Theorem C9_handler_failure_propagates :
  forall this context inv e,
  In inv (invocations (snd (route context this))) ->
  called inv (with_context inv) (with_params inv) = Js.Rejected e ->
  settled (snd (route context this)) = Js.Rejected e /\
  invocations (snd (route context this)) = [inv].
Proof.
  intros this context inv e Hin Hfail. unfold route in *.
  destruct (route_loop_cases (routeHandlers this) context)
    as [Hnone|(before & key & value & after & Hreg & Hnone & Hyes)].
  - rewrite (route_loop_none _ _ _ Hnone) in Hin. destruct Hin.
  - rewrite Hreg in *.
    rewrite (route_loop_first _ _ _ _ _ _ Hnone Hyes) in *.
    destruct (route_matched_cases key value context) as [[e' He]|[ps Hps]].
    + rewrite He in Hin. destruct Hin.
    + rewrite Hps in *. destruct Hin as [<-|[]].
      simpl in *. split; [exact Hfail | reflexivity].
Qed.

(** C9, witness: a handler whose promise rejects with a thrown value. *)
Lemma C9_handler_failure_propagates_witness :
  let e := Js.Thrown (Js.Str "database unavailable") in
  let this := addRoute GET "/users/(userId)" (failing e) new_Router in
  let context := request GET (Some "users/someUserId") in
  settled (snd (route context this)) = Js.Rejected e.
Proof.
  intros e this context.
  apply (C9_handler_failure_propagates this context
           {| called := failing e; with_context := context;
              with_params := <["userId" := Js.Str "someUserId"]> ∅ |} e).
  - vm_compute. left. reflexivity.
  - reflexivity.
Defined.

(** C10, counterexample.  With the root route registered before
    [/(name)], a GET request without a path remainder is answered by the
    root route's handler and nothing fails. *)
Lemma C10_counterexample :
  ~ absent_path_always_fails
      (addRoute GET "/(name)" (respond 200 "named")
         (addRoute GET "/" (respond 200 "root") new_Router))
      GET "/(name)" (respond 200 "named") (request GET None).
Proof.
  intros Hclaim. destruct Hclaim as [message Hrun].
  - vm_compute; reflexivity.
  - exists "(name)". split; [left; reflexivity | reflexivity].
  - vm_compute; reflexivity.
  - reflexivity.
  - reflexivity.
  - apply (f_equal settled) in Hrun. vm_compute in Hrun. discriminate Hrun.
Qed.

(** C10, amended.  For every router containing a route whose pattern has
    at least one parameter segment and whose predicate accepts the empty
    path (e.g. pattern [/(name)]), and in which no route registered before
    it accepts the request, calling [route] with a matching method and an
    absent path remainder fails during parameter extraction: [urlParts] is
    [undefined], indexing it raises a TypeError, no handler is invoked and
    the promise [route] returns rejects instead of carrying a response. *)
Theorem C10_absent_path_fails :
  forall this before method path h after context,
  routeHandlers this =
    before ++ (route_key method path, stored method path h) :: after ->
  none_accepts before context ->
  (exists part, In part (pattern_parts path) /\ param_segment part = true) ->
  test (stored method path h) method None = true ->
  req_method context = method ->
  bindingData_path context = None ->
  exists message,
    snd (route context this) =
    {| invocations := [];
       settled := Js.Rejected (Js.TypeError message) |}.
Proof.
  intros this before method path h after context
    Hreg Hnone (part & Hin & Hp) Hyes Hmethod Hpath.
  assert (pattern_parts path = [part]) as Hparts.
  { simpl in Hyes. apply addRoute_test_true in Hyes as (_ & Hlen & _).
    simpl in Hlen.
    destruct (pattern_parts path) as [|p [|q rest]]; try discriminate Hlen.
    destruct Hin as [->|[]]. reflexivity. }
  unfold route. rewrite Hreg.
  rewrite (route_loop_first _ _ _ _ _ _ Hnone)
    by (rewrite Hmethod, Hpath; exact Hyes).
  rewrite route_matched_stored, Hparts, Hpath. simpl.
  unfold param_segment in Hp. rewrite Hp. eauto.
Qed.

(** C10, witness: the route [/(name)] alone, asked without a path. *)
Lemma C10_absent_path_fails_witness :
  let h := respond 200 "named" in
  let this := addRoute GET "/(name)" h new_Router in
  exists message,
    snd (route (request GET None) this) =
    {| invocations := [];
       settled := Js.Rejected (Js.TypeError message) |}.
Proof.
  intros h this.
  apply (C10_absent_path_fails this [] GET "/(name)" h [] (request GET None)).
  - vm_compute; reflexivity.
  - constructor.
  - exists "(name)". split; [left; reflexivity | reflexivity].
  - vm_compute; reflexivity.
  - reflexivity.
  - reflexivity.
Defined.

(* ===================================================================== *)
(** ** Further properties: splitting and joining paths *)
(* ===================================================================== *)

Lemma split_cons_slash s : Js.split "/" (String "/" s) = "" :: Js.split "/" s.
Proof. reflexivity. Qed.

Lemma pattern_parts_slash p : pattern_parts ("/" +:+ p) = Js.split "/" p.
Proof. reflexivity. Qed.

Lemma length_split_slashes s : length (Js.split "/" s) = S (slashes s).
Proof.
  induction s as [|c rest IH]; [reflexivity|]. simpl.
  destruct (Ascii.eqb c "/"); simpl; [rewrite IH; reflexivity|].
  destruct (Js.split "/" rest) as [|piece pieces]; simpl in *; lia.
Qed.

Lemma split_pieces_no_slash s :
  Forall (fun piece => no_slash piece = true) (Js.split "/" s).
Proof.
  induction s as [|c rest IH]; simpl.
  - repeat constructor.
  - destruct (Ascii.eqb c "/") eqn:Hc.
    + constructor; [reflexivity | exact IH].
    + destruct (Js.split "/" rest) as [|piece pieces].
      * repeat constructor. simpl. rewrite Hc. reflexivity.
      * apply Forall_cons in IH as [Hpiece Hpieces].
        constructor; [|exact Hpieces]. simpl. rewrite Hc, Hpiece. reflexivity.
Qed.

Lemma join_cons part next rest :
  join (part :: next :: rest) = part +:+ String "/" (join (next :: rest)).
Proof. reflexivity. Qed.

(** Joining the pieces of a split gives the string back. *)
Lemma join_split s : join (Js.split "/" s) = s.
Proof.
  induction s as [|c rest IH]; [reflexivity|]. simpl.
  destruct (Ascii.eqb c "/") eqn:Hc.
  - apply Ascii.eqb_eq in Hc. subst c.
    pose proof (split_not_nil "/" rest) as Hne.
    destruct (Js.split "/" rest) as [|piece pieces]; [congruence|].
    rewrite join_cons, IH. reflexivity.
  - destruct (Js.split "/" rest) as [|piece pieces] eqn:Hsplit.
    + destruct (split_not_nil _ _ Hsplit).
    + destruct pieces as [|next pieces].
      * simpl in *. rewrite IH. reflexivity.
      * rewrite join_cons in *.
        change (String c piece +:+ String "/" (join (next :: pieces)))
          with (String c (piece +:+ String "/" (join (next :: pieces)))).
        rewrite IH. reflexivity.
Qed.

Lemma split_inj s1 s2 : Js.split "/" s1 = Js.split "/" s2 -> s1 = s2.
Proof.
  intros H. rewrite <- (join_split s1), <- (join_split s2), H. reflexivity.
Qed.

Lemma split_append_no_slash a s :
  no_slash a = true ->
  Js.split "/" (a +:+ s) =
  match Js.split "/" s with
  | piece :: pieces => (a +:+ piece) :: pieces
  | [] => [a]
  end.
Proof.
  induction a as [|c a IH]; intros Ha.
  - change ("" +:+ s) with s.
    destruct (Js.split "/" s) eqn:Hs; [destruct (split_not_nil _ _ Hs)|].
    reflexivity.
  - simpl in Ha. apply andb_prop in Ha as [Hc Ha].
    apply negb_true_iff in Hc.
    change (String c a +:+ s) with (String c (a +:+ s)).
    simpl. rewrite Hc, (IH Ha).
    destruct (Js.split "/" s) as [|piece pieces]; reflexivity.
Qed.

Lemma append_empty_r s : s +:+ "" = s.
Proof.
  induction s as [|c s IH]; [reflexivity|].
  change (String c s +:+ "") with (String c (s +:+ "")).
  rewrite IH. reflexivity.
Qed.

Lemma split_no_slash s : no_slash s = true -> Js.split "/" s = [s].
Proof.
  intros Hs. rewrite <- (append_empty_r s) at 1.
  rewrite (split_append_no_slash s "" Hs). simpl.
  rewrite append_empty_r. reflexivity.
Qed.

(** Splitting the join of slash-free pieces gives the pieces back. *)
Lemma split_join parts :
  parts <> [] -> Forall (fun piece => no_slash piece = true) parts ->
  Js.split "/" (join parts) = parts.
Proof.
  induction parts as [|part rest IH]; [congruence|]. intros _ Hall.
  apply Forall_cons in Hall as [Hpart Hrest].
  destruct rest as [|next rest].
  - simpl. apply split_no_slash. exact Hpart.
  - rewrite join_cons, (split_append_no_slash _ _ Hpart).
    rewrite split_cons_slash, IH by (congruence || exact Hrest).
    rewrite append_empty_r. reflexivity.
Qed.

(* ===================================================================== *)
(** ** Further properties: the collection under [addRoute] *)
(* ===================================================================== *)

Lemma route_selected context this :
  snd (route context this) =
  outcome_of (selected (routeHandlers this) context) context.
Proof.
  unfold route, selected.
  induction (routeHandlers this) as [|[key value] rest IH]; simpl;
    [reflexivity|].
  destruct (test value _ _); [reflexivity | exact IH].
Qed.

Lemma selected_In entries context key value :
  selected entries context = Some (key, value) ->
  In (key, value) entries /\
  test value (req_method context) (bindingData_path context) = true.
Proof.
  unfold selected. intros H. apply find_some in H. exact H.
Qed.

Section Entries.

Context {V : Type}.
Implicit Types (m : list (string * V)) (k : string).

Lemma In_set k k0 (v v0 : V) m :
  In (k, v) (JsMap.set k0 v0 m) -> (k, v) = (k0, v0) \/ In (k, v) m.
Proof.
  induction m as [|[k' v'] rest IH]; simpl.
  - intros [H|[]]. left. congruence.
  - destruct (String.eqb k' k0); simpl.
    + intros [H|H]; [left; congruence | right; right; exact H].
    + intros [H|H]; [right; left; exact H|].
      destruct (IH H) as [Heq|Hin]; [left; exact Heq | right; right; exact Hin].
Qed.

Lemma length_set k (v : V) m :
  length (JsMap.set k v m) <= S (length m).
Proof.
  induction m as [|[k' v'] rest IH]; simpl; [lia|].
  destruct (String.eqb k' k); simpl; lia.
Qed.

Lemma get_In k (v : V) m : JsMap.get k m = Some v -> In (k, v) m.
Proof.
  induction m as [|[k' v'] rest IH]; simpl; [discriminate|].
  destruct (String.eqb k' k) eqn:E.
  - apply String.eqb_eq in E. intros [= ->]. left. congruence.
  - intros H. right. apply IH. exact H.
Qed.

Lemma In_keys_get k m : In k (JsMap.keys m) -> is_Some (JsMap.get k m).
Proof.
  unfold JsMap.keys. induction m as [|[k' v'] rest IH]; simpl; [tauto|].
  destruct (String.eqb k' k) eqn:E; [eauto|].
  apply String.eqb_neq in E. intros [H|H]; [congruence | apply IH; exact H].
Qed.

End Entries.

Lemma addRoutes_cons m p h regs this :
  addRoutes ((m, p, h) :: regs) this = addRoutes regs (addRoute m p h this).
Proof. reflexivity. Qed.

(** Every entry comes from the router it started from or from one of the
    registrations. *)
Lemma addRoutes_entries regs : forall this key value,
  In (key, value) (routeHandlers (addRoutes regs this)) ->
  In (key, value) (routeHandlers this) \/
  exists m p h, In (m, p, h) regs /\ key = route_key m p /\
                value = stored m p h.
Proof.
  induction regs as [|[[m p] h] regs IH]; intros this key value Hin;
    [left; exact Hin|].
  rewrite addRoutes_cons in Hin.
  destruct (IH _ _ _ Hin) as [Hhere|(m' & p' & h' & Hreg & Hk & Hv)].
  - simpl in Hhere. apply In_set in Hhere as [[= -> ->]|Hold]; [|tauto].
    right. exists m, p, h. split; [left; reflexivity | split; reflexivity].
  - right. exists m', p', h'. split; [right; exact Hreg | auto].
Qed.

(** An entry of a (method, path) pair stays an entry of that pair. *)
Lemma addRoutes_keeps_pair regs : forall this m p h0,
  JsMap.get (route_key m p) (routeHandlers this) = Some (stored m p h0) ->
  exists h',
    JsMap.get (route_key m p) (routeHandlers (addRoutes regs this)) =
    Some (stored m p h').
Proof.
  induction regs as [|[[m1 p1] h1] regs IH]; intros this m p h0 Hget;
    [eauto|].
  rewrite addRoutes_cons.
  destruct (string_dec (route_key m1 p1) (route_key m p)) as [Hk|Hk].
  - apply route_key_inj in Hk as [-> ->].
    apply (IH _ m p h1). simpl. apply get_set_eq.
  - apply (IH _ m p h0). simpl. rewrite get_set_ne by exact Hk. exact Hget.
Qed.

Lemma addRoutes_registered regs : forall this m p h,
  In (m, p, h) regs ->
  exists h',
    JsMap.get (route_key m p) (routeHandlers (addRoutes regs this)) =
    Some (stored m p h').
Proof.
  induction regs as [|[[m1 p1] h1] regs IH]; intros this m p h Hin;
    [destruct Hin|].
  rewrite addRoutes_cons. destruct Hin as [[= -> -> ->]|Hin].
  - apply (addRoutes_keeps_pair regs _ m p h). simpl. apply get_set_eq.
  - apply (IH _ m p h Hin).
Qed.

Lemma addRoutes_length regs : forall this,
  length (routeHandlers (addRoutes regs this)) <=
  length (routeHandlers this) + length regs.
Proof.
  induction regs as [|[[m p] h] regs IH]; intros this; simpl; [lia|].
  etransitivity; [apply IH|]. simpl.
  pose proof (length_set (route_key m p)
                {| test := addRoute_test m (Js.shift (Js.split "/" p));
                   handler := h |} (routeHandlers this)).
  lia.
Qed.

(** X1.  [addRoute] stores the route under its own (method, path) pair and
    leaves what is stored under every other pair as it was: two different
    pairs never share a key. *)
Theorem X1_addRoute_lookup_frame :
  forall this m p h,
  JsMap.get (route_key m p) (routeHandlers (addRoute m p h this)) =
    Some (stored m p h) /\
  forall m' p',
    (m', p') <> (m, p) ->
    JsMap.get (route_key m' p') (routeHandlers (addRoute m p h this)) =
    JsMap.get (route_key m' p') (routeHandlers this).
Proof.
  intros this m p h. split.
  - simpl. apply get_set_eq.
  - intros m' p' Hne. simpl. apply get_set_ne.
    intros Hk. apply route_key_inj in Hk as [-> ->]. congruence.
Qed.

(** X1, witness: registering PUT on a path leaves the POST route of the
    same path in place. *)
Lemma X1_addRoute_lookup_frame_witness :
  let this := addRoute POST "/the/same/path" (respond 200 "post") new_Router in
  JsMap.get (route_key POST "/the/same/path")
    (routeHandlers (addRoute PUT "/the/same/path" (respond 200 "put") this)) =
  Some (stored POST "/the/same/path" (respond 200 "post")).
Proof.
  intros this.
  destruct (X1_addRoute_lookup_frame this PUT "/the/same/path"
              (respond 200 "put")) as [_ Hframe].
  rewrite (Hframe POST "/the/same/path") by discriminate.
  vm_compute. reflexivity.
Defined.

(** X2.  In every router built from [new Router()] by [addRoute] calls the
    keys are pairwise distinct, every entry is the entry of one of the
    registrations (its key, its predicate, its handler), every registered
    (method, path) pair has an entry with that pair's predicate, and there
    are at most as many entries as calls. *)
Theorem X2_collection_invariant :
  forall regs,
  let entries := routeHandlers (addRoutes regs new_Router) in
  NoDup (JsMap.keys entries) /\
  (forall key value,
      In (key, value) entries ->
      exists m p h, In (m, p, h) regs /\ key = route_key m p /\
                    value = stored m p h) /\
  (forall m p h,
      In (m, p, h) regs ->
      exists h', JsMap.get (route_key m p) entries = Some (stored m p h')) /\
  length entries <= length regs.
Proof.
  intros regs entries. split; [|split; [|split]].
  - apply addRoutes_keys_NoDup. constructor.
  - intros key value Hin.
    destruct (addRoutes_entries _ _ _ _ Hin) as [[]|H]. exact H.
  - intros m p h Hin. apply (addRoutes_registered regs new_Router m p h Hin).
  - apply (addRoutes_length regs new_Router).
Qed.

(** X2, witness: three calls, two of them for the same pair. *)
Lemma X2_collection_invariant_witness :
  let regs := [(GET, "/a/(x)", respond 200 "one");
               (GET, "/a/b", respond 200 "two");
               (GET, "/a/(x)", respond 200 "three")] in
  exists h',
    JsMap.get (route_key GET "/a/(x)")
      (routeHandlers (addRoutes regs new_Router)) =
    Some (stored GET "/a/(x)" h').
Proof.
  intros regs.
  destruct (X2_collection_invariant regs) as (_ & _ & Hreg & _).
  apply (Hreg GET "/a/(x)" (respond 200 "one")). left. reflexivity.
Defined.

(* ===================================================================== *)
(** ** Further properties: which entry a request selects *)
(* ===================================================================== *)

Lemma selected_app entries1 entries2 context :
  selected (entries1 ++ entries2) context =
  match selected entries1 context with
  | Some e => Some e
  | None => selected entries2 context
  end.
Proof.
  unfold selected. induction entries1 as [|e rest IH]; simpl; [reflexivity|].
  destruct (test (snd e) _ _); [reflexivity | exact IH].
Qed.

Lemma selected_fresh this m p h context :
  ~ In (route_key m p) (JsMap.keys (routeHandlers this)) ->
  selected (routeHandlers (addRoute m p h this)) context =
  match selected (routeHandlers this) context with
  | Some e => Some e
  | None =>
      if test (stored m p h) (req_method context) (bindingData_path context)
      then Some (route_key m p, stored m p h)
      else None
  end.
Proof.
  intros Hfresh. simpl. rewrite set_absent by exact Hfresh.
  rewrite selected_app. destruct (selected (routeHandlers this) context);
    [reflexivity|].
  unfold selected. simpl. destruct (addRoute_test _ _ _ _); reflexivity.
Qed.

Lemma selected_overwrite entries key (value' : Route) context :
  NoDup (JsMap.keys entries) ->
  In key (JsMap.keys entries) ->
  (forall value, In (key, value) entries -> test value = test value') ->
  selected (JsMap.set key value' entries) context =
  match selected entries context with
  | Some (k, v) => if String.eqb k key then Some (k, value') else Some (k, v)
  | None => None
  end.
Proof.
  unfold JsMap.keys, selected.
  induction entries as [|[k0 v0] rest IH]; simpl; intros Hnd Hin Hsame;
    [destruct Hin|].
  apply NoDup_cons in Hnd as [Hfresh Hnd].
  destruct (String.eqb k0 key) eqn:E; simpl.
  - apply String.eqb_eq in E. subst k0.
    rewrite <- (Hsame v0) by (left; reflexivity).
    destruct (test v0 _ _); [rewrite String.eqb_refl; reflexivity|].
    destruct (find _ rest) as [[k v]|] eqn:Hfind; [|reflexivity].
    apply find_some in Hfind as [Hk _].
    destruct (String.eqb k key) eqn:E; [|reflexivity].
    apply String.eqb_eq in E. subst k. exfalso. apply Hfresh.
    apply list_elem_of_In. change key with (fst (key, v)).
    apply in_map. exact Hk.
  - destruct (test v0 _ _); [rewrite E; reflexivity|].
    apply String.eqb_neq in E. apply IH.
    + exact Hnd.
    + destruct Hin as [Hin|Hin]; [congruence | exact Hin].
    + intros value Hv. apply Hsame. right. exact Hv.
Qed.

(** In a router built by [addRoute] calls, the entry under the key of a
    pair carries that pair's predicate. *)
Lemma registered_test regs m p value :
  In (route_key m p, value) (routeHandlers (addRoutes regs new_Router)) ->
  test value = addRoute_test m (pattern_parts p).
Proof.
  intros Hin.
  destruct (addRoutes_entries _ _ _ _ Hin) as [[]|(m' & p' & h & _ & Hk & ->)].
  apply route_key_inj in Hk as [-> ->]. reflexivity.
Qed.

(** X3.  Registering a (method, path) pair that the router already has,
    with another handler, changes neither the keys nor their order, and
    every request selects the entry of the same key as before: the route
    keeps its priority, and only the handler behind that key is new. *)
Theorem X3_reregistration_keeps_priority :
  forall regs m p h context,
  let this := addRoutes regs new_Router in
  In (route_key m p) (JsMap.keys (routeHandlers this)) ->
  JsMap.keys (routeHandlers (addRoute m p h this)) =
    JsMap.keys (routeHandlers this) /\
  selected (routeHandlers (addRoute m p h this)) context =
    (match selected (routeHandlers this) context with
     | Some (k, v) =>
         if String.eqb k (route_key m p) then Some (k, stored m p h)
         else Some (k, v)
     | None => None
     end) /\
  snd (route context (addRoute m p h this)) =
    outcome_of (selected (routeHandlers (addRoute m p h this)) context)
      context.
Proof.
  intros regs m p h context this Hin. split; [|split].
  - simpl. apply keys_set_present. exact Hin.
  - simpl. apply (selected_overwrite (routeHandlers this)).
    + apply addRoutes_keys_NoDup. constructor.
    + exact Hin.
    + intros value Hv. apply (registered_test regs m p value Hv).
  - apply route_selected.
Qed.

(** X3, witness: the first of two overlapping routes is registered again
    and still answers the request both accept, now with the new handler. *)
Lemma X3_reregistration_keeps_priority_witness :
  let regs := [(GET, "/a/(x)", respond 200 "one");
               (GET, "/a/b", respond 200 "two")] in
  let this := addRoutes regs new_Router in
  let context := request GET (Some "a/b") in
  snd (route context (addRoute GET "/a/(x)" (respond 200 "three") this)) =
  hands_over (respond 200 "three") context (<["x" := Js.Str "b"]> ∅).
Proof.
  intros regs this context.
  destruct (X3_reregistration_keeps_priority regs GET "/a/(x)"
              (respond 200 "three") context) as (_ & Hsel & Hrun).
  - vm_compute. left. reflexivity.
  - fold this in Hsel, Hrun. rewrite Hrun, Hsel. vm_compute. reflexivity.
Defined.

(** X4.  A route registered under a new key is placed after all the
    others: a request that an existing route accepts still selects that
    route, and the new route is selected exactly for the requests that its
    predicate accepts and no existing route does. *)
Theorem X4_new_route_comes_last :
  forall this m p h context,
  ~ In (route_key m p) (JsMap.keys (routeHandlers this)) ->
  routeHandlers (addRoute m p h this) =
    routeHandlers this ++ [(route_key m p, stored m p h)] /\
  selected (routeHandlers (addRoute m p h this)) context =
    (match selected (routeHandlers this) context with
     | Some e => Some e
     | None =>
         if test (stored m p h) (req_method context) (bindingData_path context)
         then Some (route_key m p, stored m p h)
         else None
     end) /\
  (forall e, selected (routeHandlers this) context = Some e ->
             snd (route context (addRoute m p h this)) =
             snd (route context this)).
Proof.
  intros this m p h context Hfresh. split; [|split].
  - simpl. apply set_absent. exact Hfresh.
  - apply selected_fresh. exact Hfresh.
  - intros e He. rewrite !route_selected, (selected_fresh _ _ _ _ _ Hfresh), He.
    reflexivity.
Qed.

(** X4, witness: a catch-all parameter route added after a literal one
    does not take over the literal route's request. *)
Lemma X4_new_route_comes_last_witness :
  let this := addRoute GET "/users/me" (respond 200 "me") new_Router in
  let context := request GET (Some "users/me") in
  snd (route context
         (addRoute GET "/users/(userId)" (respond 200 "user") this)) =
  snd (route context this).
Proof.
  intros this context.
  destruct (X4_new_route_comes_last this GET "/users/(userId)"
              (respond 200 "user") context) as (_ & _ & Hkeep).
  - vm_compute. intros [H|[]]. discriminate H.
  - apply (Hkeep (route_key GET "/users/me",
                  stored GET "/users/me" (respond 200 "me"))).
    vm_compute. reflexivity.
Defined.

(** X5.  Two routes under new, different keys that never accept the same
    request can be registered in either order: every request has the same
    outcome. *)
Theorem X5_disjoint_routes_commute :
  forall this m1 p1 h1 m2 p2 h2 context,
  ~ In (route_key m1 p1) (JsMap.keys (routeHandlers this)) ->
  ~ In (route_key m2 p2) (JsMap.keys (routeHandlers this)) ->
  route_key m1 p1 <> route_key m2 p2 ->
  ~ (test (stored m1 p1 h1) (req_method context) (bindingData_path context)
       = true /\
     test (stored m2 p2 h2) (req_method context) (bindingData_path context)
       = true) ->
  snd (route context (addRoute m2 p2 h2 (addRoute m1 p1 h1 this))) =
  snd (route context (addRoute m1 p1 h1 (addRoute m2 p2 h2 this))).
Proof.
  intros this m1 p1 h1 m2 p2 h2 context Hf1 Hf2 Hne Hdisjoint.
  assert (forall ma pa mb pb hb,
             ~ In (route_key ma pa) (JsMap.keys (routeHandlers this)) ->
             route_key ma pa <> route_key mb pb ->
             ~ In (route_key ma pa)
                 (JsMap.keys (routeHandlers (addRoute mb pb hb this)))) as Hstill.
  { intros ma pa mb pb hb Hfa Hab Hin.
    apply In_keys_get in Hin as [v Hv]. simpl in Hv.
    rewrite get_set_ne in Hv by congruence.
    apply get_In in Hv. apply Hfa. unfold JsMap.keys.
    change (route_key ma pa) with (fst (route_key ma pa, v)).
    apply in_map. exact Hv. }
  rewrite !route_selected.
  rewrite (selected_fresh (addRoute m1 p1 h1 this))
    by (apply (Hstill m2 p2 m1 p1 h1); [exact Hf2 | congruence]).
  rewrite (selected_fresh (addRoute m2 p2 h2 this))
    by (apply (Hstill m1 p1 m2 p2 h2); [exact Hf1 | congruence]).
  rewrite !selected_fresh by assumption.
  destruct (selected (routeHandlers this) context); [reflexivity|].
  destruct (test (stored m1 p1 h1) _ _) eqn:H1;
    destruct (test (stored m2 p2 h2) _ _) eqn:H2; try reflexivity.
  exfalso. apply Hdisjoint. split; reflexivity.
Qed.

(** X5, witness: the same path under POST and under PUT. *)
Lemma X5_disjoint_routes_commute_witness :
  let context := request POST (Some "the/same/path") in
  snd (route context
         (addRoute PUT "/the/same/path" (respond 200 "put")
            (addRoute POST "/the/same/path" (respond 200 "post") new_Router))) =
  snd (route context
         (addRoute POST "/the/same/path" (respond 200 "post")
            (addRoute PUT "/the/same/path" (respond 200 "put") new_Router))).
Proof.
  intros context.
  apply (X5_disjoint_routes_commute new_Router
           POST "/the/same/path" (respond 200 "post")
           PUT "/the/same/path" (respond 200 "put") context).
  - intros [].
  - intros [].
  - vm_compute. discriminate.
  - intros [_ H]. vm_compute in H. discriminate H.
Defined.

(* ===================================================================== *)
(** ** Further properties: which patterns overlap *)
(* ===================================================================== *)

Lemma pattern_parts_no_slash path :
  Forall (fun piece => no_slash piece = true) (pattern_parts path).
Proof.
  unfold pattern_parts, Js.shift.
  pose proof (split_pieces_no_slash path) as H.
  destruct (Js.split "/" path); [constructor|].
  apply Forall_cons in H as [_ H]. exact H.
Qed.

Lemma merge_parts_length parts1 : forall parts2,
  length parts1 = length parts2 ->
  length (merge_parts parts1 parts2) = length parts1.
Proof.
  induction parts1 as [|s1 rest1 IH]; intros [|s2 rest2] Hlen;
    simpl in *; try reflexivity; try discriminate.
  rewrite IH by lia. reflexivity.
Qed.

Lemma merge_parts_lookup parts1 : forall parts2 i s1 s2,
  parts1 !! i = Some s1 -> parts2 !! i = Some s2 ->
  merge_parts parts1 parts2 !! i =
  Some (if param_segment s1 then s2 else s1).
Proof.
  induction parts1 as [|t1 rest1 IH]; intros [|t2 rest2] [|i] s1 s2 H1 H2;
    simpl in *; try discriminate.
  - injection H1 as ->. injection H2 as ->. reflexivity.
  - apply IH; assumption.
Qed.

Lemma merge_parts_no_slash parts1 : forall parts2,
  Forall (fun piece => no_slash piece = true) parts1 ->
  Forall (fun piece => no_slash piece = true) parts2 ->
  Forall (fun piece => no_slash piece = true) (merge_parts parts1 parts2).
Proof.
  induction parts1 as [|s1 rest1 IH]; intros [|s2 rest2] H1 H2; simpl;
    try constructor.
  - apply Forall_cons in H1 as [H1 _]. apply Forall_cons in H2 as [H2 _].
    destruct (param_segment s1); assumption.
  - apply Forall_cons in H1 as [_ H1]. apply Forall_cons in H2 as [_ H2].
    apply IH; assumption.
Qed.

(** X6.  Two routes have a request that both accept if and only if they
    are registered for the same method, their patterns have the same
    number of segments, at least one, and wherever both patterns have a
    literal segment at the same index the two literals are equal. *)
Theorem X6_overlap_iff :
  forall m1 p1 h1 m2 p2 h2,
  (exists requestMethod url,
      test (stored m1 p1 h1) requestMethod url = true /\
      test (stored m2 p2 h2) requestMethod url = true) <->
  m1 = m2 /\
  length (pattern_parts p1) = length (pattern_parts p2) /\
  pattern_parts p1 <> [] /\
  literals_agree (pattern_parts p1) (pattern_parts p2).
Proof.
  intros m1 p1 h1 m2 p2 h2. simpl. split.
  - intros (rm & url & H1 & H2).
    apply addRoute_test_true in H1 as (-> & Hlen1 & Hlit1).
    apply addRoute_test_true in H2 as (-> & Hlen2 & Hlit2).
    split; [reflexivity|]. split; [congruence|]. split.
    + intros Hnil. rewrite Hnil in Hlen1. simpl in Hlen1.
      pose proof (length_split_pos "/" (default "" url)) as Hpos.
      unfold request_parts in Hlen1. lia.
    + intros i s1 s2 Hs1 Hs2 Hl1 Hl2.
      pose proof (Hlit1 i s1 Hs1 Hl1) as Hr1.
      pose proof (Hlit2 i s2 Hs2 Hl2) as Hr2. congruence.
  - intros (-> & Hlen & Hne & Hagree).
    set (parts := merge_parts (pattern_parts p1) (pattern_parts p2)).
    assert (length parts = length (pattern_parts p1)) as Hparts
      by (apply merge_parts_length; exact Hlen).
    assert (request_parts (Some (join parts)) = parts) as Hsplit.
    { unfold request_parts. simpl. apply split_join.
      - intros Hnil. rewrite Hnil in Hparts. simpl in Hparts.
        destruct (pattern_parts p1); [congruence | discriminate].
      - apply merge_parts_no_slash; apply pattern_parts_no_slash. }
    exists m2, (Some (join parts)). split; apply addRoute_test_true;
      (split; [reflexivity|]); rewrite Hsplit;
      (split; [congruence|]).
    + intros i s1 Hs1 Hl1.
      destruct (pattern_parts p2 !! i) as [s2|] eqn:Hs2.
      * unfold parts. rewrite (merge_parts_lookup _ _ _ _ _ Hs1 Hs2), Hl1.
        reflexivity.
      * apply lookup_lt_Some in Hs1. apply lookup_ge_None in Hs2. lia.
    + intros i s2 Hs2 Hl2.
      destruct (pattern_parts p1 !! i) as [s1|] eqn:Hs1.
      * unfold parts. rewrite (merge_parts_lookup _ _ _ _ _ Hs1 Hs2).
        destruct (param_segment s1) eqn:Hl1; [reflexivity|].
        f_equal. apply (Hagree i s1 s2); assumption.
      * apply lookup_lt_Some in Hs2. apply lookup_ge_None in Hs1. lia.
Qed.


(* ===================================================================== *)
(** ** Further properties: what [route] does with a request *)
(* ===================================================================== *)

(** X7.  Whatever the router and the request, [route] makes at most one
    handler call; a call it makes is a call of the handler of a registered
    route whose predicate accepts the request, it passes the request's own
    context, and [route] settles exactly as that call does.  When it makes
    no call it resolves with the not-found response or, only if the path
    remainder is absent, rejects with a TypeError. *)
Theorem X7_route_outcome :
  forall this context,
  let out := snd (route context this) in
  length (invocations out) <= 1 /\
  (forall inv,
      In inv (invocations out) ->
      with_context inv = context /\
      settled out = called inv context (with_params inv) /\
      exists key value,
        In (key, value) (routeHandlers this) /\
        called inv = handler value /\
        test value (req_method context) (bindingData_path context) = true) /\
  (invocations out = [] ->
   settled out = Js.Resolved not_found_response \/
   (bindingData_path context = None /\
    exists message, settled out = Js.Rejected (Js.TypeError message))).
Proof.
  intros this context out. unfold out. rewrite route_selected.
  destruct (selected (routeHandlers this) context) as [[key value]|] eqn:Hsel;
    simpl.
  - apply selected_In in Hsel as [Hin Hyes]. unfold route_matched.
    destruct (route_params _ _ _ _) as [e|params] eqn:Hrun; simpl.
    + split; [lia|]. split; [intros inv []|]. intros _. right.
      apply route_params_error in Hrun as [Hundef ->].
      split; [apply route_urlParts_undefined; exact Hundef | eauto].
    + split; [lia|]. split; [|discriminate].
      intros inv [<-|[]]. simpl. split; [reflexivity|].
      split; [reflexivity|]. exists key, value. auto.
  - split; [lia|]. split; [intros inv []|]. intros _. left. reflexivity.
Qed.

(** X7, witness: a handler that resolves; [route] resolves with the same
    response. *)
Lemma X7_route_outcome_witness :
  let this := addRoute GET "/users/(userId)" (respond 200 "user") new_Router in
  let context := request GET (Some "users/someUserId") in
  settled (snd (route context this)) =
  Js.Resolved {| headers := None; status := 200; body := Js.Str "user" |}.
Proof.
  intros this context.
  destruct (X7_route_outcome this context) as (_ & Hcall & _).
  destruct (Hcall {| called := respond 200 "user"; with_context := context;
                     with_params := <["userId" := Js.Str "someUserId"]> ∅ |})
    as (_ & Hsettled & _).
  - vm_compute. left. reflexivity.
  - rewrite Hsettled. reflexivity.
Defined.

(** X8.  When the path remainder is the empty string, every parameter the
    handler receives is bound to [undefined] (not to the empty string):
    [urlParts] is then the empty string itself, and an index into it
    yields [undefined]. *)
Theorem X8_empty_path_binds_undefined :
  forall this context inv name w,
  bindingData_path context = Some "" ->
  In inv (invocations (snd (route context this))) ->
  with_params inv !! name = Some w ->
  w = Js.Undefined.
Proof.
  intros this context inv name w Hpath Hin Hw.
  rewrite route_selected in Hin.
  destruct (selected (routeHandlers this) context) as [[key value]|];
    simpl in Hin; [|destruct Hin].
  unfold route_matched in Hin. rewrite Hpath in Hin. simpl in Hin.
  destruct (route_params _ PartsEmptyString 0 ∅) as [e|params] eqn:Hrun;
    simpl in Hin; [destruct Hin|].
  destruct Hin as [<-|[]]. simpl in Hw.
  destruct (route_params_names _ _ _ _ _ _ _ Hrun Hw)
    as [Hold|(j & part & _ & _ & _ & Hat)].
  - rewrite lookup_empty in Hold. discriminate.
  - simpl in Hat. congruence.
Qed.

(** X8, witness: the pattern [/(name)] asked with an empty path. *)
Lemma X8_empty_path_binds_undefined_witness :
  let h := respond 200 "named" in
  let this := addRoute GET "/(name)" h new_Router in
  let context := request GET (Some "") in
  let params : ParamsMap := <["name" := Js.Undefined]> ∅ in
  In {| called := h; with_context := context; with_params := params |}
     (invocations (snd (route context this))) /\
  params !! "name" = Some Js.Undefined.
Proof.
  intros h this context params.
  assert (In {| called := h; with_context := context;
                with_params := params |}
             (invocations (snd (route context this)))) as Hin
    by (vm_compute; left; reflexivity).
  split; [exact Hin|].
  assert (exists w, params !! "name" = Some w) as [w Hw]
    by (exists Js.Undefined; vm_compute; reflexivity).
  rewrite Hw. f_equal.
  apply (X8_empty_path_binds_undefined this context _ "name" w eq_refl Hin Hw).
Defined.

Lemma no_parens_replace s : no_parens (Js.replace_parens s) = true.
Proof.
  induction s as [|c s IH]; [reflexivity|]. simpl.
  destruct (Ascii.eqb c "(" || Ascii.eqb c ")") eqn:Hc; [exact IH|].
  simpl. rewrite Hc, IH. reflexivity.
Qed.

Lemma no_slash_replace s :
  no_slash s = true -> no_slash (Js.replace_parens s) = true.
Proof.
  induction s as [|c s IH]; [reflexivity|]. simpl. intros H.
  apply andb_prop in H as [Hc Hs].
  destruct (Ascii.eqb c "(" || Ascii.eqb c ")"); [apply IH; exact Hs|].
  simpl. rewrite Hc, (IH Hs). reflexivity.
Qed.

(** X9.  In a router built from [new Router()] by [addRoute] calls, for a
    request whose path remainder is present and not empty, every entry of
    the ParamsMap a handler receives binds a name without parentheses and
    without slashes to a string that is one of the segments of the request
    path, and so contains no slash. *)
Theorem X9_params_are_request_segments :
  forall regs context url inv name w,
  bindingData_path context = Some url -> url <> "" ->
  In inv (invocations (snd (route context (addRoutes regs new_Router)))) ->
  with_params inv !! name = Some w ->
  no_parens name = true /\ no_slash name = true /\
  exists seg,
    w = Js.Str seg /\ In seg (request_parts (Some url)) /\
    no_slash seg = true.
Proof.
  intros regs context url inv name w Hpath Hne Hin Hw.
  rewrite route_selected in Hin.
  destruct (selected _ context) as [[key value]|] eqn:Hsel;
    simpl in Hin; [|destruct Hin].
  apply selected_In in Hsel as [Hentry Hyes].
  destruct (addRoutes_entries _ _ _ _ Hentry)
    as [[]|(m & p & h & _ & -> & ->)].
  rewrite route_matched_stored, Hpath, (route_urlParts_array _ Hne) in Hin.
  destruct (route_params _ _ 0 ∅) as [e|params] eqn:Hrun;
    simpl in Hin; [destruct Hin|].
  destruct Hin as [<-|[]]. simpl in Hw.
  destruct (route_params_names _ _ _ _ _ _ _ Hrun Hw)
    as [Hold|(j & part & Hj & _ & <- & Hat)].
  { rewrite lookup_empty in Hold. discriminate. }
  simpl in Hyes. rewrite Hpath in Hyes.
  apply addRoute_test_true in Hyes as (_ & Hlen & _).
  assert (no_slash part = true) as Hpart.
  { pose proof (pattern_parts_no_slash p) as Hall.
    rewrite Forall_forall in Hall. apply Hall.
    apply list_elem_of_lookup. eauto. }
  split; [apply no_parens_replace|].
  split; [apply no_slash_replace; exact Hpart|].
  simpl in Hat. injection Hat as Hat.
  assert (j < length (request_parts (Some url))) as Hrange
    by (rewrite <- Hlen; apply lookup_lt_Some in Hj; exact Hj).
  destruct (index_in_range _ _ _ Hrange Hat) as (seg & Hseg & ->).
  exists seg. split; [reflexivity|].
  assert (seg ∈ request_parts (Some url)) as Helem
    by (apply list_elem_of_lookup; eauto).
  split; [apply list_elem_of_In; exact Helem|].
  pose proof (split_pieces_no_slash url) as Hall.
  rewrite Forall_forall in Hall. apply Hall. exact Helem.
Qed.

(** X9, witness: the two-parameter route of the test suite. *)
Lemma X9_params_are_request_segments_witness :
  let regs := [(POST, "/nodes/(nodeId)/users/(userId)/access",
                respond 200 "access")] in
  let context :=
    request POST (Some "nodes/someNodeId/users/someUserId/access") in
  let params : ParamsMap :=
    <["userId" := Js.Str "someUserId"]> (<["nodeId" := Js.Str "someNodeId"]> ∅) in
  exists seg,
    Js.Str "someUserId" = Js.Str seg /\
    In seg (request_parts (bindingData_path context)) /\
    no_slash seg = true.
Proof.
  intros regs context params.
  apply (X9_params_are_request_segments regs context
           "nodes/someNodeId/users/someUserId/access"
           {| called := respond 200 "access"; with_context := context;
              with_params := params |} "userId").
  - reflexivity.
  - discriminate.
  - vm_compute. left. reflexivity.
  - vm_compute. reflexivity.
Defined.

(* ===================================================================== *)
(** ** Further properties: what a pattern accepts *)
(* ===================================================================== *)

Lemma slashes_no_slash s : slashes s = 0 <-> no_slash s = true.
Proof.
  induction s as [|c s IH]; simpl; [tauto|].
  destruct (Ascii.eqb c "/"); simpl; [split; [lia | discriminate] | exact IH].
Qed.

Lemma pattern_parts_length path : length (pattern_parts path) = slashes path.
Proof.
  unfold pattern_parts, Js.shift.
  pose proof (length_split_slashes path) as H.
  destruct (Js.split "/" path); simpl in *; lia.
Qed.

Lemma request_parts_length url :
  length (request_parts url) = S (slashes (default "" url)).
Proof. apply length_split_slashes. Qed.

Lemma pattern_parts_prefix a rest :
  no_slash a = true ->
  pattern_parts (a +:+ String "/" rest) = Js.split "/" rest.
Proof.
  intros Ha. unfold pattern_parts.
  rewrite (split_append_no_slash _ _ Ha), split_cons_slash. reflexivity.
Qed.

(** X10.  A route registered with a path that contains no slash (the empty
    string, or a path written without its leading slash such as [users])
    has no segments and is never matched, whatever the request. *)
Theorem X10_path_without_slash_is_dead :
  forall m path h requestMethod url,
  no_slash path = true ->
  test (stored m path h) requestMethod url = false.
Proof.
  intros m path h rm url Hpath.
  destruct (test (stored m path h) rm url) eqn:Hyes; [|reflexivity].
  simpl in Hyes. apply addRoute_test_true in Hyes as (_ & Hlen & _).
  rewrite pattern_parts_length, request_parts_length in Hlen.
  apply slashes_no_slash in Hpath. lia.
Qed.

(** X10, witness: the pattern [users], written without its slash, against
    the path [users]. *)
Lemma X10_path_without_slash_is_dead_witness :
  test (stored GET "users" (respond 200 "users")) GET (Some "users") = false.
Proof.
  apply (X10_path_without_slash_is_dead GET "users" (respond 200 "users")).
  reflexivity.
Defined.

(** X11.  Whatever stands before the first slash of a registered path is
    ignored: the route accepts the same requests and extracts the same
    parameters as the route whose path begins at that slash. *)
Theorem X11_text_before_first_slash_ignored :
  forall m a rest h,
  no_slash a = true ->
  (forall requestMethod url,
      test (stored m (a +:+ "/" +:+ rest) h) requestMethod url =
      test (stored m ("/" +:+ rest) h) requestMethod url) /\
  (forall context,
      route_matched (route_key m (a +:+ "/" +:+ rest))
        (stored m (a +:+ "/" +:+ rest) h) context =
      route_matched (route_key m ("/" +:+ rest))
        (stored m ("/" +:+ rest) h) context).
Proof.
  intros m a rest h Ha.
  change ("/" +:+ rest) with (String "/" rest).
  assert (pattern_parts (a +:+ String "/" rest) =
          pattern_parts (String "/" rest)) as Hparts
    by (rewrite (pattern_parts_prefix _ _ Ha); reflexivity).
  split.
  - intros rm url. simpl. rewrite Hparts. reflexivity.
  - intros context. rewrite !route_matched_stored, Hparts. reflexivity.
Qed.

(** X11, witness: [api/users/(userId)] behaves like [/users/(userId)]. *)
Lemma X11_text_before_first_slash_ignored_witness :
  test (stored GET "api/users/(userId)" (respond 200 "user")) GET
    (Some "users/someUserId") = true.
Proof.
  destruct (X11_text_before_first_slash_ignored GET "api" "users/(userId)"
              (respond 200 "user") eq_refl) as [Htest _].
  change "api/users/(userId)" with ("api" +:+ "/" +:+ "users/(userId)").
  rewrite Htest. vm_compute. reflexivity.
Defined.

(** X12.  A route whose pattern, after the leading slash, has only literal
    segments accepts exactly one path: the pattern without its leading
    slash, character for character (trailing and doubled slashes
    included); an absent path remainder counts as the empty path. *)
Theorem X12_literal_route_accepts_its_own_path :
  forall m p h requestMethod url,
  (forall part, In part (Js.split "/" p) -> param_segment part = false) ->
  test (stored m ("/" +:+ p) h) requestMethod url = true <->
  requestMethod = m /\ default "" url = p.
Proof.
  intros m p h rm url Hliteral. simpl.
  rewrite addRoute_test_true, pattern_parts_slash. unfold request_parts.
  split.
  - intros (-> & Hlen & Hlit). split; [reflexivity|].
    apply split_inj. symmetry. apply list_eq. intros i.
    destruct (Js.split "/" p !! i) as [part|] eqn:Hi.
    + symmetry. apply Hlit; [exact Hi|]. apply Hliteral.
      apply list_elem_of_In, list_elem_of_lookup. eauto.
    + apply lookup_ge_None in Hi. symmetry. apply lookup_ge_None. lia.
  - intros (-> & <-). split; [reflexivity|]. split; [reflexivity|].
    intros i part Hi _. exact Hi.
Qed.

(** X12, witness: [/users/], with its trailing slash, does not accept
    [users]. *)
Lemma X12_literal_route_accepts_its_own_path_witness :
  test (stored GET "/users/" (respond 200 "list")) GET (Some "users") = false.
Proof.
  destruct (test (stored GET "/users/" (respond 200 "list")) GET
              (Some "users")) eqn:Hyes; [|reflexivity].
  change "/users/" with ("/" +:+ "users/") in Hyes.
  apply (X12_literal_route_accepts_its_own_path GET "users/") in Hyes.
  - destruct Hyes as [_ Hpath]. discriminate Hpath.
  - intros part [<-|[<-|[]]]; reflexivity.
Defined.

(** X13.  A route whose pattern is a single parameter segment accepts, for
    its method, exactly the paths without a slash, the empty and the
    absent path among them. *)
Theorem X13_single_parameter_route :
  forall m part h requestMethod url,
  no_slash part = true -> param_segment part = true ->
  test (stored m ("/" +:+ part) h) requestMethod url = true <->
  requestMethod = m /\ no_slash (default "" url) = true.
Proof.
  intros m part h rm url Hpart Hparam. simpl.
  rewrite addRoute_test_true, pattern_parts_slash, request_parts_length.
  rewrite (split_no_slash _ Hpart). simpl.
  rewrite <- slashes_no_slash. split.
  - intros (-> & Hlen & _). split; [reflexivity | lia].
  - intros (-> & Hzero). split; [reflexivity|]. split; [lia|].
    intros [|i] s; simpl; [|discriminate]. intros [= <-]. congruence.
Qed.

(** X13, witness: [/(id)] accepts the absent path. *)
Lemma X13_single_parameter_route_witness :
  test (stored GET "/(id)" (respond 200 "item")) GET None = true.
Proof.
  change "/(id)" with ("/" +:+ "(id)").
  apply (X13_single_parameter_route GET "(id)"); [reflexivity|reflexivity|].
  split; reflexivity.
Defined.

(* ===================================================================== *)
(** ** Further properties: the first accepting entry is served *)
(* ===================================================================== *)

(** X14.  [route] stops at the first entry, in the insertion order of the
    route collection, whose predicate accepts the request: the entries
    after it are not consulted, whatever their predicates would say, every
    handler call made is a call of that entry's handler, and whenever the
    path remainder is present, or the entry's key has no parameter
    segment, that handler is called exactly once and its promise is what
    [route] returns.  When two entries both accept the request, it is an
    entry no later than the earlier of the two that is served. *)
Theorem X14_first_accepting_entry_is_served :
  forall this context,
  (forall before key value after,
      routeHandlers this = before ++ (key, value) :: after ->
      none_accepts before context ->
      test value (req_method context) (bindingData_path context) = true ->
      snd (route context this) = route_matched key value context /\
      (forall inv, In inv (invocations (snd (route context this))) ->
                   called inv = handler value /\ with_context inv = context) /\
      ((bindingData_path context = None ->
        forall part, In part (Js.shift (Js.split "/" key)) ->
                     param_segment part = false) ->
       exists params,
         snd (route context this) =
         hands_over (handler value) context params)) /\
  (forall i j e1 e2,
      routeHandlers this !! i = Some e1 ->
      routeHandlers this !! j = Some e2 ->
      i < j ->
      test (snd e1) (req_method context) (bindingData_path context) = true ->
      test (snd e2) (req_method context) (bindingData_path context) = true ->
      exists k e,
        k <= i /\ routeHandlers this !! k = Some e /\
        snd (route context this) = route_matched (fst e) (snd e) context).
Proof.
  intros this context. split.
  - intros before key value after Hreg Hnone Hyes.
    unfold route. rewrite Hreg, (route_loop_first _ _ _ _ _ _ Hnone Hyes).
    split; [reflexivity|]. split.
    + intros inv Hin.
      destruct (route_matched_cases key value context) as [[e He]|[ps Hps]].
      * rewrite He in Hin. destruct Hin.
      * rewrite Hps in Hin. destruct Hin as [<-|[]]. split; reflexivity.
    + apply route_matched_calls.
  - intros i j e1 e2 Hi Hj Hlt Hyes1 Hyes2.
    destruct (route_loop_cases (routeHandlers this) context)
      as [Hnone|(before & key & value & after & Hreg & Hnone & Hyes)].
    + unfold none_accepts in Hnone. rewrite Forall_forall in Hnone.
      apply list_elem_of_lookup_2 in Hi.
      rewrite (Hnone e1 Hi) in Hyes1. discriminate.
    + exists (length before), (key, value). split; [|split].
      * destruct (le_lt_dec (length before) i) as [Hle|Hgt]; [exact Hle|].
        exfalso. rewrite Hreg, lookup_app_l in Hi by exact Hgt.
        unfold none_accepts in Hnone. rewrite Forall_forall in Hnone.
        apply list_elem_of_lookup_2 in Hi.
        rewrite (Hnone e1 Hi) in Hyes1. discriminate.
      * rewrite Hreg. apply list_lookup_middle. reflexivity.
      * unfold route. rewrite Hreg.
        apply route_loop_first; assumption.
Qed.

(** X14, witness: two routes that both accept the path [route/detail]; the
    one stored first is called. *)
Lemma X14_first_accepting_entry_is_served_witness :
  let first := respond 200 "basic" in
  let second := respond 200 "detail" in
  let this :=
    addRoute GET "/route/detail" second
      (addRoute GET "/route/(param)" first new_Router) in
  let context := request GET (Some "route/detail") in
  exists params, snd (route context this) = hands_over first context params.
Proof.
  intros first second this context.
  destruct (X14_first_accepting_entry_is_served this context) as [Hfirst _].
  destruct (Hfirst [] (route_key GET "/route/(param)")
              (stored GET "/route/(param)" first)
              [(route_key GET "/route/detail",
                stored GET "/route/detail" second)])
    as (_ & _ & Hcalled).
  - vm_compute; reflexivity.
  - constructor.
  - vm_compute; reflexivity.
  - apply Hcalled. discriminate.
Defined.
